(** * mapswipe2hdx: aggregation and export pipeline

    A shallow embedding of [src/mapswipe2hdx/app.py]: the project
    identifier resolver, the project fetcher, the schema-reconciling
    aggregator, the shapefile exporter, the archive packager and the
    dataset creator, together with the properties of the specification
    that concern them.

    Conventions.
    - Python [str] values are modelled as [string] (ASCII characters, which
      is what URLs and MapSwipe identifiers are made of).
    - Code with effects (network, logging, file system, registry) lives in
      the monad [M]: a state monad over [World] whose result is either a
      value or a raised exception.  As in Python, effects performed before
      an exception is raised persist.
    - Library calls whose code is not part of the repository
      ([requests.get], [raise_for_status], [geopandas.read_file], failures
      of the file system) are parameters collected in the record [Env]. *)

From Stdlib Require Import String Ascii List ZArith QArith Bool Lia Permutation.
Import ListNotations.
Close Scope Q_scope.
Local Open Scope string_scope.
Local Open Scope list_scope.

(* ================================================================== *)
(** ** Python strings *)
(* ================================================================== *)

Module Py.

(** [s.startswith(p)] *)
Definition startswith (s p : string) : bool := String.prefix p s.

(** [s.endswith(p)] *)
Fixpoint endswith (s p : string) : bool :=
  if String.eqb s p then true
  else match s with
       | EmptyString => false
       | String _ s' => endswith s' p
       end.

(** [sep.join(l)] *)
Definition join (sep : string) (l : list string) : string := String.concat sep l.

Definition lower_ascii (c : ascii) : ascii :=
  let n := nat_of_ascii c in
  if andb (Nat.leb 65 n) (Nat.leb n 90) then ascii_of_nat (n + 32) else c.

Definition upper_ascii (c : ascii) : ascii :=
  let n := nat_of_ascii c in
  if andb (Nat.leb 97 n) (Nat.leb n 122) then ascii_of_nat (n - 32) else c.

(** [s.lower()] and [s.upper()] *)
Fixpoint lower (s : string) : string :=
  match s with
  | EmptyString => EmptyString
  | String c s' => String (lower_ascii c) (lower s')
  end.

Fixpoint upper (s : string) : string :=
  match s with
  | EmptyString => EmptyString
  | String c s' => String (upper_ascii c) (upper s')
  end.

(** [s.replace(" ", "_")]: replacement of a single character. *)
Fixpoint replace_char (a b : ascii) (s : string) : string :=
  match s with
  | EmptyString => EmptyString
  | String c s' => String (if Ascii.eqb c a then b else c) (replace_char a b s')
  end.

(** The newline character. *)
Definition nl : string := String (ascii_of_nat 10) EmptyString.

(** Membership in a list of strings, as [x in l]. *)
Definition mem (x : string) (l : list string) : bool :=
  existsb (String.eqb x) l.

(** A value read from the settings that the code formats into a string or
    tests with [isinstance(_, str)]: a string, or any other value, kept
    with its [str()] rendering. *)
Inductive pyval :=
| PStr (s : string)
| PNonStr (shown : string).

(** [f"{v}"] *)
Definition fmt (v : pyval) : string :=
  match v with PStr s => s | PNonStr r => r end.

End Py.

(* ================================================================== *)
(** ** Feature collections (GeoDataFrame) *)
(* ================================================================== *)

(** Geometry types, as reported by [gdf.geometry.type]. *)
Inductive geom_type :=
| Point | LineString | LinearRing | Polygon
| MultiPoint | MultiLineString | MultiPolygon | GeometryCollection.

Definition geom_type_name (t : geom_type) : string :=
  match t with
  | Point => "Point"
  | LineString => "LineString"
  | LinearRing => "LinearRing"
  | Polygon => "Polygon"
  | MultiPoint => "MultiPoint"
  | MultiLineString => "MultiLineString"
  | MultiPolygon => "MultiPolygon"
  | GeometryCollection => "GeometryCollection"
  end.

Definition geom_type_eqb (a b : geom_type) : bool :=
  String.eqb (geom_type_name a) (geom_type_name b).

(** A geometry: its type and its coordinates (flattened). *)
Record geometry := { gtype : geom_type; coords : list Z }.

(** Scalar attribute values; [VNull] is the missing value (NaN / None). *)
Inductive value :=
| VNull
| VStr (s : string)
| VNum (z : Z)
| VBool (b : bool).

(** A feature: its geometry and its attribute values, aligned with the
    attribute columns of the frame that holds it. *)
Record feature := { geom : geometry; attrs : list value }.

(** A frame: attribute column names (the geometry column is kept apart,
    every feature being located) and rows, in order. *)
Record GeoDataFrame := { columns : list string; rows : list feature }.

(** [gpd.GeoDataFrame()] *)
Definition empty_frame : GeoDataFrame := {| columns := []; rows := [] |}.

(** [df.empty]: some axis has length zero.  A frame that has a row has its
    geometry column, so only the row axis can be of length zero there. *)
Definition empty (df : GeoDataFrame) : bool :=
  match rows df with [] => true | _ :: _ => false end.

(** The value a row holds for attribute [c], the row's values being
    aligned with [cols]; missing when the attribute is not a column. *)
Fixpoint cell (cols : list string) (vals : list value) (c : string) : value :=
  match cols, vals with
  | c' :: cols', v :: vals' => if String.eqb c c' then v else cell cols' vals' c
  | _, _ => VNull
  end.


(** Re-alignment of a row on a new list of columns: attributes the row
    does not have become null. *)
Definition reindex (old new : list string) (r : feature) : feature :=
  {| geom := geom r; attrs := map (cell old (attrs r)) new |}.

(** [df[c] = v] for a column [c] the frame does not have yet: the column
    is appended and every row receives [v]. *)
Definition set_new_column (df : GeoDataFrame) (c : string) (v : value) : GeoDataFrame :=
  {| columns := columns df ++ [c];
     rows := map (fun r => {| geom := geom r; attrs := attrs r ++ [v] |}) (rows df) |}.

(** Union of two column lists in order of first appearance. *)
Definition union_columns (a b : list string) : list string :=
  a ++ filter (fun c => negb (Py.mem c a)) b.

(** [pd.concat([a, b], ignore_index=True)]: rows of [a] then rows of [b],
    over the union of the columns, missing cells null. *)
Definition concat (a b : GeoDataFrame) : GeoDataFrame :=
  let cols := union_columns (columns a) (columns b) in
  {| columns := cols;
     rows := map (reindex (columns a) cols) (rows a)
             ++ map (reindex (columns b) cols) (rows b) |}.

(** A frame as [geopandas.read_file] builds it: distinct column names and
    one value per column in every row. *)
Definition well_formed (df : GeoDataFrame) : Prop :=
  NoDup (columns df) /\
  Forall (fun r => length (attrs r) = length (columns df)) (rows df).

(** The tagging step of the aggregation loop:
    [if "project_name" not in data.columns: data["project_name"] = project_name] *)
Definition tag (project_name : string) (data : GeoDataFrame) : GeoDataFrame :=
  if Py.mem "project_name" (columns data) then data
  else set_new_column data "project_name" (VStr project_name).

(** The merging step of the aggregation loop:
    [if combined.empty: combined = data.copy()
     else: combined = pd.concat([combined, data], ignore_index=True)] *)
Definition accumulate (combined data : GeoDataFrame) : GeoDataFrame :=
  if empty combined then data else concat combined data.

(** The accumulator after the loop has merged the frames [l] in order. *)
Definition combine_all (l : list GeoDataFrame) : GeoDataFrame :=
  fold_left accumulate l empty_frame.

(* ================================================================== *)
(** ** Exceptions, the world and the monad of effects *)
(* ================================================================== *)

(** A raised exception (an instance of a subclass of [Exception]); [str(e)]
    is [exn_msg e]. *)
Record exn := { exn_type : string; exn_msg : string }.

Inductive Result (A : Type) :=
| Ok (a : A)
| Raise (e : exn).
Arguments Ok {A} a.
Arguments Raise {A} e.

Inductive level := INFO | WARNING | ERROR.

(** What a file holds: a frame encoded by a vector driver, or text. *)
Inductive content :=
| Vector (driver : string) (gdf : GeoDataFrame)
| Text (s : string).

(** A file of a directory: its name, the size [os.path.getsize] reports
    (in bytes) and what it holds. *)
Record File := { fname : string; fsize : Z; fcontent : content }.

(** How a member entered an archive: [zf.write] (whole file),
    [shutil.copyfileobj] into [zf.open(name, "w")] with a buffer size, or
    [zf.writestr]. *)
Inductive add_mode :=
| WholeFile
| Streamed (buffer_size : Z)
| FromString.

Record Member := { mname : string; mmode : add_mode; mcontent : content }.

(** Arguments of a [Resource] handed to the registry. *)
Record resource := {
  res_name : string;
  res_description : string;
  res_format : string;
  res_file : string
}.

(** Calls on the dataset registry client, in the order the code makes them. *)
Inductive hdx_call :=
| HDataset (title name notes owner_org maintainer license_id : string)
| HSetTimePeriod
| HSetExpectedUpdateFrequency (f : string)
| HAddOtherLocation (l : string)
| HAddTag (t : string)
| HAddUpdateResource (r : resource)
| HCreateInHdx
| HUpdateInHdx.

(** Operations of the file system and of the registry that may fail. *)
Inductive op :=
| OpMakedirs (path : string)
| OpToFile (dir_path file_name driver : string)
| OpZipFile (zip_path : string)
| OpIterdir (path : string)
| OpGetsize (dir_path file_name : string)
| OpOpen (dir_path file_name : string)
| OpZipOpen (zip_path member : string)
| OpZipWrite (zip_path member : string)
| OpZipWritestr (zip_path member : string)
| OpRmtree (path : string)
| OpHdx (c : hdx_call).

Record World := {
  requests_made : list string;              (* URLs requested, oldest first *)
  log : list (level * string);              (* logger calls, oldest first *)
  dirs : list (string * list File);         (* directories and their files *)
  archives : list (string * list Member);   (* archives and their members *)
  hdx_calls : list hdx_call                 (* registry calls, oldest first *)
}.

Definition initial_world : World :=
  {| requests_made := []; log := []; dirs := []; archives := []; hdx_calls := [] |}.

Record response := { status_code : Z; text : string }.

(** The environment: everything the repository's code calls but does not
    define. *)
Record Env := {
  (** [requests.get(url)], given the requests made before it *)
  requests_get : list string -> string -> Result response;
  (** [response.raise_for_status()]: the exception it raises, if any *)
  raise_for_status : response -> option exn;
  (** [gpd.read_file(text)] *)
  read_file : string -> Result GeoDataFrame;
  (** the exception an operation raises, if any *)
  fault : op -> option exn;
  (** size in bytes of a frame encoded by a driver *)
  encoded_size : string -> GeoDataFrame -> Z;
  (** [os.getcwd()] *)
  getcwd : string;
  (** [utc_now.strftime("%z")] and [utc_now.strftime("%Y-%m-%d %H:%M:%S")] *)
  utc_offset : string;
  utc_stamp : string;
  (** [dataset.get_hdx_url()] *)
  hdx_url : string
}.

Definition M (A : Type) : Type := World -> Result A * World.

Definition ret {A} (a : A) : M A := fun w => (Ok a, w).

Definition bind {A B} (c : M A) (k : A -> M B) : M B :=
  fun w => match c w with
           | (Ok a, w') => k a w'
           | (Raise e, w') => (Raise e, w')
           end.

(** [raise e] *)
Definition raise {A} (e : exn) : M A := fun w => (Raise e, w).

(** [try: c  except Exception as e: handler e] *)
Definition try_except {A} (c : M A) (handler : exn -> M A) : M A :=
  fun w => match c w with
           | (Ok a, w') => (Ok a, w')
           | (Raise e, w') => handler e w'
           end.

Declare Scope py_scope.
Delimit Scope py_scope with py.
Notation "x <- c ;; k" := (bind c (fun x => k))
  (at level 61, c at next level, right associativity) : py_scope.
Notation "c ;; k" := (bind c (fun _ => k))
  (at level 61, right associativity) : py_scope.
Local Open Scope py_scope.

(** [for x in l: body x] *)
Fixpoint for_each {A} (l : list A) (body : A -> M unit) : M unit :=
  match l with
  | [] => ret tt
  | x :: l' => body x ;; for_each l' body
  end.

(** Lifting of a pure result that may be an exception. *)
Definition lift {A} (r : Result A) : M A := fun w => (r, w).

(** An operation that may fail and otherwise changes the world. *)
Definition perform (env : Env) (o : op) (effect : World -> World) : M unit :=
  fun w => match fault env o with
           | Some e => (Raise e, w)
           | None => (Ok tt, effect w)
           end.

(** *** Logging *)

Definition logger_call (lv : level) (msg : string) : M unit :=
  fun w => (Ok tt,
            {| requests_made := requests_made w; log := log w ++ [(lv, msg)];
               dirs := dirs w; archives := archives w; hdx_calls := hdx_calls w |}).

Definition logger_info := logger_call INFO.
Definition logger_warning := logger_call WARNING.
Definition logger_error := logger_call ERROR.

(** *** Network *)

(** [requests.get(url)]: the request is recorded, then answered. *)
Definition http_get (env : Env) (url : string) : M response :=
  fun w => (requests_get env (requests_made w) url,
            {| requests_made := requests_made w ++ [url]; log := log w;
               dirs := dirs w; archives := archives w; hdx_calls := hdx_calls w |}).

Definition check_status (env : Env) (r : response) : M unit :=
  match raise_for_status env r with
  | Some e => raise e
  | None => ret tt
  end.

(** *** Association lists for directories and archives *)

Fixpoint lookup {V} (k : string) (l : list (string * V)) : option V :=
  match l with
  | [] => None
  | (k', v) :: l' => if String.eqb k k' then Some v else lookup k l'
  end.

Fixpoint store {V} (k : string) (v : V) (l : list (string * V)) : list (string * V) :=
  match l with
  | [] => [(k, v)]
  | (k', v') :: l' => if String.eqb k k' then (k, v) :: l' else (k', v') :: store k v l'
  end.

Fixpoint remove_key {V} (k : string) (l : list (string * V)) : list (string * V) :=
  match l with
  | [] => []
  | (k', v') :: l' => if String.eqb k k' then remove_key k l' else (k', v') :: remove_key k l'
  end.

Definition set_dirs (d : list (string * list File)) (w : World) : World :=
  {| requests_made := requests_made w; log := log w;
     dirs := d; archives := archives w; hdx_calls := hdx_calls w |}.

Definition set_archives (a : list (string * list Member)) (w : World) : World :=
  {| requests_made := requests_made w; log := log w;
     dirs := dirs w; archives := a; hdx_calls := hdx_calls w |}.

Definition add_hdx_call (c : hdx_call) (w : World) : World :=
  {| requests_made := requests_made w; log := log w;
     dirs := dirs w; archives := archives w; hdx_calls := hdx_calls w ++ [c] |}.

(** A file written into a directory replaces the file of the same name. *)
Fixpoint put_file (f : File) (files : list File) : list File :=
  match files with
  | [] => [f]
  | g :: files' => if String.eqb (fname f) (fname g) then f :: files'
                   else g :: put_file f files'
  end.

Definition files_of (w : World) (dir_path : string) : list File :=
  match lookup dir_path (dirs w) with Some fs => fs | None => [] end.

Definition members_of (w : World) (zip_path : string) : list Member :=
  match lookup zip_path (archives w) with Some ms => ms | None => [] end.

(** *** File system and registry primitives *)

(** [os.makedirs(path, exist_ok=True)] *)
Definition makedirs (env : Env) (path : string) : M unit :=
  perform env (OpMakedirs path)
    (fun w => match lookup path (dirs w) with
              | Some _ => w
              | None => set_dirs (store path [] (dirs w)) w
              end).

(** [gdf.to_file(f"{dir_path}/{file_name}", driver=driver)] *)
Definition to_file (env : Env) (gdf : GeoDataFrame) (dir_path file_name driver : string) : M unit :=
  perform env (OpToFile dir_path file_name driver)
    (fun w => set_dirs
       (store dir_path
          (put_file {| fname := file_name;
                       fsize := encoded_size env driver gdf;
                       fcontent := Vector driver gdf |}
                    (files_of w dir_path))
          (dirs w)) w).

(** [zipfile.ZipFile(zip_path, "w", ...)]: the archive is created empty. *)
Definition zip_create (env : Env) (zip_path : string) : M unit :=
  perform env (OpZipFile zip_path)
    (fun w => set_archives (store zip_path [] (archives w)) w).

Definition zip_append (zip_path : string) (m : Member) (w : World) : World :=
  set_archives (store zip_path (members_of w zip_path ++ [m]) (archives w)) w.

(** [pathlib.Path(working_dir).iterdir()] *)
Definition iterdir (env : Env) (working_dir : string) : M (list File) :=
  fun w => match fault env (OpIterdir working_dir) with
           | Some e => (Raise e, w)
           | None =>
             match lookup working_dir (dirs w) with
             | Some fs => (Ok fs, w)
             | None => (Raise {| exn_type := "FileNotFoundError"; exn_msg := working_dir |}, w)
             end
           end.

(** [os.path.getsize(file_path)] *)
Definition getsize (env : Env) (dir_path : string) (f : File) : M Z :=
  perform env (OpGetsize dir_path (fname f)) (fun w => w) ;; ret (fsize f).

(** [shutil.rmtree(working_dir)] *)
Definition rmtree (env : Env) (working_dir : string) : M unit :=
  perform env (OpRmtree working_dir)
    (fun w => set_dirs (remove_key working_dir (dirs w)) w).

(** A call on the registry client. *)
Definition hdx (env : Env) (c : hdx_call) : M unit :=
  perform env (OpHdx c) (add_hdx_call c).

(* ================================================================== *)
(** ** Settings *)
(* ================================================================== *)

(** An entry of [PROJECTS]: a dictionary whose keys ["project_id"] and
    ["name"] may each be absent; a display name, when given, is a string. *)
Record Project := {
  project_id : option Py.pyval;
  name : option string
}.

Record Config := {
  DATASET_NAME : string;
  DATASET_DESCRIPTION : string;
  DATASET_PREFIX : string;
  DATASET_LOCATION : string;
  DATASET_FREQUENCY : string;
  DATASET_TAGS : list string;
  DATASET_LICENSE : string;
  HDX_OWNER_ORG : string;
  HDX_MAINTAINER : string;
  PROJECTS : list Project;
  FILE_FORMATS : list string
}.

(* ================================================================== *)
(** ** The pattern [projects/([-\w]+)/?$] *)
(* ================================================================== *)

Module Re.

Definition between (lo hi : nat) (c : ascii) : bool :=
  let n := nat_of_ascii c in andb (Nat.leb lo n) (Nat.leb n hi).

(** [\w] on ASCII text: letters, digits and the underscore. *)
Definition is_word (c : ascii) : bool :=
  between 48 57 c || between 65 90 c || between 97 122 c || Ascii.eqb c "_".

(** The class [[-\w]]. *)
Definition is_token_char (c : ascii) : bool :=
  Ascii.eqb c "-" || is_word c.

(** The longest prefix made of characters of a class, and what follows. *)
Fixpoint span (p : ascii -> bool) (s : string) : string * string :=
  match s with
  | EmptyString => (EmptyString, EmptyString)
  | String c s' =>
    if p c then let (t, r) := span p s' in (String c t, r)
    else (EmptyString, s)
  end.

(** [s] minus the prefix [p], when [s] starts with [p]. *)
Fixpoint strip_prefix (p s : string) : option string :=
  match p, s with
  | EmptyString, _ => Some s
  | String a p', String b s' => if Ascii.eqb a b then strip_prefix p' s' else None
  | String _ _, EmptyString => None
  end.

(** [$]: at the end of the text, or before a newline that ends it. *)
Definition at_end (s : string) : bool :=
  String.eqb s "" || String.eqb s Py.nl.

(** [/?$] *)
Definition slash_end (s : string) : bool :=
  at_end s ||
  match s with
  | String c s' => Ascii.eqb c "/" && at_end s'
  | EmptyString => false
  end.

(** The pattern matched at the start of [s]; the result is group 1.  The
    class is greedy, and a shorter token cannot be followed by [/?$] as
    the next character is then a token character, so only the longest
    token is tried. *)
Definition match_here (s : string) : option string :=
  match strip_prefix "projects/" s with
  | None => None
  | Some rest =>
    let (token, tail) := span is_token_char rest in
    match token with
    | EmptyString => None
    | String _ _ => if slash_end tail then Some token else None
    end
  end.

(** [re.search(r"projects/([-\w]+)/?$", s)], reduced to group 1 of the
    leftmost match. *)
Fixpoint search (s : string) : option string :=
  match match_here s with
  | Some token => Some token
  | None =>
    match s with
    | EmptyString => None
    | String _ s' => search s'
    end
  end.

End Re.

(* ================================================================== *)
(** ** MapSwipeDataFetcher *)
(* ================================================================== *)

Definition yes_maybe_url (project_id : Py.pyval) : string :=
  "https://apps.mapswipe.org/api/yes_maybe/yes_maybe_" ++ Py.fmt project_id ++ ".geojson".

Definition aoi_url (project_id : Py.pyval) : string :=
  "https://apps.mapswipe.org/api/project_geometries/project_geom_"
  ++ Py.fmt project_id ++ ".geojson".

(** One retrieval: request, status check, parsing. *)
Definition retrieve (env : Env) (url : string) : M GeoDataFrame :=
  response <- http_get env url ;;
  check_status env response ;;
  lift (read_file env (text response)).

Definition fetch_project_data (env : Env) (project_id : Py.pyval)
  : M (option GeoDataFrame * option GeoDataFrame) :=
  try_except
    (data_yes_maybe <- retrieve env (yes_maybe_url project_id) ;;
     aoi_data <- retrieve env (aoi_url project_id) ;;
     ret (Some data_yes_maybe, Some aoi_data))
    (fun e =>
       logger_error ("Failed to fetch data for project " ++ Py.fmt project_id
                     ++ ": " ++ exn_msg e) ;;
       ret (None, None)).

Definition extract_project_id (project_id_or_url : Py.pyval) : M Py.pyval :=
  match project_id_or_url with
  | Py.PStr s =>
    if Py.startswith s "http" then
      match Re.search s with
      | Some token => ret (Py.PStr token)
      | None =>
        logger_warning ("Could not extract project ID from URL: " ++ s) ;;
        ret project_id_or_url
      end
    else ret project_id_or_url
  | Py.PNonStr _ => ret project_id_or_url
  end.

(* ================================================================== *)
(** ** MapSwipeDataAggregator *)
(* ================================================================== *)

(** [project["project_id"]] *)
Definition getitem_project_id (project : Project) : M Py.pyval :=
  match project_id project with
  | Some v => ret v
  | None => raise {| exn_type := "KeyError"; exn_msg := "'project_id'" |}
  end.

(** [project.get("name", f"Project {project_id}")] *)
Definition display_name (project : Project) (project_id : Py.pyval) : string :=
  match name project with
  | Some n => n
  | None => "Project " ++ Py.fmt project_id
  end.

(** The body of the loop for one project, on the two accumulators. *)
Definition aggregate_step (env : Env) (acc : GeoDataFrame * GeoDataFrame)
           (project : Project) : M (GeoDataFrame * GeoDataFrame) :=
  let (combined_yes_maybe, combined_aoi) := acc in
  raw <- getitem_project_id project ;;
  project_id <- extract_project_id raw ;;
  let project_name := display_name project project_id in
  logger_info ("Fetching project: " ++ project_name
               ++ " (ID: " ++ Py.fmt project_id ++ ")") ;;
  fetched <- fetch_project_data env project_id ;;
  match fetched with
  | (Some data_yes_maybe, Some aoi_data) =>
    ret (accumulate combined_yes_maybe (tag project_name data_yes_maybe),
         accumulate combined_aoi (tag project_name aoi_data))
  | _ => ret acc
  end.

Fixpoint aggregate_loop (env : Env) (projects : list Project)
         (acc : GeoDataFrame * GeoDataFrame) : M (GeoDataFrame * GeoDataFrame) :=
  match projects with
  | [] => ret acc
  | project :: rest =>
    acc' <- aggregate_step env acc project ;;
    aggregate_loop env rest acc'
  end.

Definition aggregate_project_data (env : Env) (config : Config)
  : M (GeoDataFrame * GeoDataFrame) :=
  aggregate_loop env (PROJECTS config) (empty_frame, empty_frame).

(* ================================================================== *)
(** ** HDXDatasetCreator *)
(* ================================================================== *)

(** The link of one project, as the loop of
    [attach_project_links_to_description] builds it. *)
Definition project_link (project : Project) : string :=
  let project_id := match project_id project with
                    | Some v => v
                    | None => Py.PStr ""
                    end in
  let project_name := match name project with
                      | Some n => n
                      | None => ("Project " ++ Py.fmt project_id)%string
                      end in
  let project_id :=
    match project_id with
    | Py.PStr s =>
      if Py.startswith s "http" then
        match Re.search s with
        | Some token => Py.PStr token
        | None => project_id
        end
      else project_id
    | Py.PNonStr _ => project_id
    end in
  let project_url :=
    ("https://mapswipe.org/en/projects/" ++ Py.fmt project_id ++ "/")%string in
  ("- [" ++ project_name ++ "](" ++ project_url ++ ")")%string.

Definition project_links (config : Config) : list string :=
  map project_link (PROJECTS config).

(** [base_description or self.config.DATASET_DESCRIPTION] *)
Definition or_default (base_description : option string) (default : string) : string :=
  match base_description with
  | Some (String c s) => String c s
  | Some EmptyString | None => default
  end.

Definition is_nonempty (s : string) : bool :=
  match s with EmptyString => false | String _ _ => true end.

Definition attach_project_links_to_description (config : Config)
           (base_description : option string) : string :=
  let description := or_default base_description (DATASET_DESCRIPTION config) in
  let links := project_links config in
  match links with
  | [] => description
  | _ :: _ =>
    let description :=
      if is_nonempty description && negb (Py.endswith description (Py.nl ++ Py.nl))
      then (description ++ Py.nl ++ Py.nl)%string
      else description in
    let description :=
      (description ++ " Source MapSwipe Projects" ++ Py.nl ++ Py.nl)%string in
    (description ++ Py.join Py.nl links)%string
  end.

(** The dictionaries of [get_driver_for_format] and
    [get_format_display_name]. *)
Definition get_driver_for_format (fmt : string) : string :=
  let k := Py.lower fmt in
  if String.eqb k "geojson" then "GeoJSON"
  else if String.eqb k "gpkg" then "GPKG"
  else if String.eqb k "kml" then "KML"
  else if String.eqb k "shp" then "ESRI Shapefile"
  else Py.upper fmt.

Definition get_format_display_name (fmt : string) : string :=
  let k := Py.lower fmt in
  if String.eqb k "geojson" then "GeoJSON"
  else if String.eqb k "gpkg" then "GeoPackage"
  else if String.eqb k "kml" then "KML"
  else if String.eqb k "shp" then "Shapefile"
  else Py.upper fmt.

(** *** Shapefile export *)

(** [gdf.geometry.type] *)
Definition type_of (r : feature) : geom_type := gtype (geom r).

(** [Series.unique()]: distinct values in order of first appearance. *)
Fixpoint unique_from (seen : list geom_type) (l : list geom_type) : list geom_type :=
  match l with
  | [] => []
  | t :: l' =>
    if existsb (geom_type_eqb t) seen then unique_from seen l'
    else t :: unique_from (t :: seen) l'
  end.

Definition unique (l : list geom_type) : list geom_type := unique_from [] l.

(** [gdf[gdf.geometry.type == geom_type]] *)
Definition select_type (gdf : GeoDataFrame) (t : geom_type) : GeoDataFrame :=
  {| columns := columns gdf;
     rows := filter (fun r => geom_type_eqb (type_of r) t) (rows gdf) |}.

Definition shapefile_name (name : string) (t : geom_type) : string :=
  name ++ "_" ++ geom_type_name t ++ ".shp".

(** The files [export_shapefile] hands to [to_file], in order: name and
    frame. *)
Definition shapefile_parts (gdf : GeoDataFrame) (name : string)
  : list (string * GeoDataFrame) :=
  map (fun t => (shapefile_name name t, select_type gdf t))
      (unique (map type_of (rows gdf))).

Definition export_shapefile (env : Env) (gdf : GeoDataFrame) (name dir_path : string)
  : M unit :=
  for_each (shapefile_parts gdf name)
    (fun part => to_file env (snd part) dir_path (fst part) "ESRI Shapefile").

(** *** Archive packaging *)

Definition buffer_size : Z := 4 * 1024 * 1024.

(** [os.path.getsize(file_path) / (1024 * 1024)].  The division is the
    float division of Python; dividing an integer below 2^53 by a power
    of two is exact and the division is monotone, so the comparison with
    100 is the one of the exact quotients. *)
Definition file_size_mb (size : Z) : Q := (inject_Z size / inject_Z (1024 * 1024))%Q.

(** [file_size_mb > 100] *)
Definition is_large (size : Z) : bool := negb (Qle_bool (file_size_mb size) (inject_Z 100)).

(** The body of the loop of [file_to_zip] for one file. *)
Definition add_file (env : Env) (working_dir zip_path : string) (f : File) : M unit :=
  size <- getsize env working_dir f ;;
  if is_large size then
    perform env (OpOpen working_dir (fname f)) (fun w => w) ;;
    perform env (OpZipOpen zip_path (fname f))
      (zip_append zip_path
         {| mname := fname f; mmode := Streamed buffer_size; mcontent := fcontent f |})
  else
    perform env (OpZipWrite zip_path (fname f))
      (zip_append zip_path
         {| mname := fname f; mmode := WholeFile; mcontent := fcontent f |}).

Definition readme_content (env : Env) (config : Config) : string :=
  "Exported using MapSwipe Data Aggregator" ++ Py.nl
  ++ "Timestamp (UTC" ++ utc_offset env ++ "): " ++ utc_stamp env ++ Py.nl
  ++ "Data Source: https://mapswipe.org/" ++ Py.nl
  ++ "Dataset: " ++ DATASET_NAME config ++ Py.nl.

Definition readme_member (env : Env) (config : Config) : Member :=
  {| mname := "Readme.txt"; mmode := FromString;
     mcontent := Text (readme_content env config) |}.

(** The block under [with zipfile.ZipFile(...) as zf].  The archive lives
    in the world, so what was added before an exception stays in it, as
    when the [with] statement closes the archive on the way out. *)
Definition fill_archive (env : Env) (config : Config) (working_dir zip_path : string)
  : M unit :=
  files <- iterdir env working_dir ;;
  for_each files (add_file env working_dir zip_path) ;;
  perform env (OpZipWritestr zip_path "Readme.txt")
    (zip_append zip_path (readme_member env config)).

Definition file_to_zip (env : Env) (config : Config) (working_dir zip_path : string)
  : M string :=
  zip_create env zip_path ;;
  fill_archive env config working_dir zip_path ;;
  rmtree env working_dir ;;
  ret zip_path.

(** *** Dataset creation *)

Definition zip_name_of (config : Config) (fmt : string) : string :=
  Py.replace_char " " "_" (Py.lower (DATASET_PREFIX config ++ "_" ++ fmt ++ ".zip")).

(** The body of the [try] block for one format. *)
Definition export_format (env : Env) (config : Config)
           (combined_yes_maybe combined_aoi : GeoDataFrame) (fmt : string) : M unit :=
  let dir_path := (getcwd env ++ "/" ++ DATASET_PREFIX config ++ "_" ++ fmt)%string in
  makedirs env dir_path ;;
  (if String.eqb fmt "shp" then
     export_shapefile env combined_yes_maybe "results_yes_maybe" dir_path ;;
     export_shapefile env combined_aoi "aois" dir_path
   else
     let driver := get_driver_for_format fmt in
     to_file env combined_yes_maybe dir_path ("results_yes_maybe." ++ fmt) driver ;;
     to_file env combined_aoi dir_path ("aois." ++ fmt) driver) ;;
  zip_path <- file_to_zip env config dir_path (zip_name_of config fmt) ;;
  let fmt_display := get_format_display_name fmt in
  hdx env (HAddUpdateResource
             {| res_name := DATASET_PREFIX config ++ "_results_yes_maybe." ++ fmt;
                res_description := "Combined results from MapSwipe projects in "
                                   ++ fmt_display ++ " format";
                res_format := fmt;
                res_file := zip_path |}).

(** One turn of the loop over [FILE_FORMATS]:
    [try: ...  except Exception as e: logger.error(...); raise e] *)
Definition export_format_guarded (env : Env) (config : Config)
           (combined_yes_maybe combined_aoi : GeoDataFrame) (fmt : string) : M unit :=
  try_except
    (export_format env config combined_yes_maybe combined_aoi fmt)
    (fun e =>
       logger_error ("Error exporting to " ++ fmt ++ ": " ++ exn_msg e) ;;
       raise e).

(** The [Dataset(dataset_args)] call of [create_and_upload_dataset]. *)
Definition dataset_call (config : Config) : hdx_call :=
  HDataset (DATASET_NAME config) (DATASET_PREFIX config)
    (attach_project_links_to_description config (Some (DATASET_DESCRIPTION config)))
    (HDX_OWNER_ORG config) (HDX_MAINTAINER config) (DATASET_LICENSE config).

(** The statements of [create_and_upload_dataset] before the loop over the
    formats. *)
Definition prepare_dataset (env : Env) (config : Config) : M unit :=
  hdx env (dataset_call config) ;;
  hdx env HSetTimePeriod ;;
  hdx env (HSetExpectedUpdateFrequency (DATASET_FREQUENCY config)) ;;
  hdx env (HAddOtherLocation (DATASET_LOCATION config)) ;;
  for_each (DATASET_TAGS config) (fun t => hdx env (HAddTag t)).

Definition create_and_upload_dataset (env : Env) (config : Config)
           (combined_yes_maybe combined_aoi : GeoDataFrame) : M string :=
  prepare_dataset env config ;;
  for_each (FILE_FORMATS config)
    (export_format_guarded env config combined_yes_maybe combined_aoi) ;;
  hdx env HCreateInHdx ;;
  hdx env HUpdateInHdx ;;
  ret (hdx_url env).

(** [main], after the settings have been loaded. *)
Definition main (env : Env) (config : Config) : M unit :=
  combined <- aggregate_project_data env config ;;
  let (combined_yes_maybe, combined_aoi) := combined in
  if negb (empty combined_yes_maybe) && negb (empty combined_aoi) then
    create_and_upload_dataset env config combined_yes_maybe combined_aoi ;;
    ret tt
  else
    logger_error "No valid data fetched from the provided MapSwipe projects.".

(* ================================================================== *)
(** ** Notions used to state the properties *)
(* ================================================================== *)


(** The columns [cols] widened by the frames [l], in order. *)
Definition widen (cols : list string) (l : list GeoDataFrame) : list string :=
  fold_left (fun acc d => union_columns acc (columns d)) l cols.



(** A pair of frames that [fetch_project_data] returned for a project of
    the settings, each tagged with the display name of the project. *)
Definition fetched_and_tagged (env : Env) (projects : list Project)
           (pair : GeoDataFrame * GeoDataFrame) : Prop :=
  exists project raw id w0 w1 w2 w3 y a,
    In project projects /\ project_id project = Some raw /\
    extract_project_id raw w0 = (Ok id, w1) /\
    fetch_project_data env id w2 = (Ok (Some y, Some a), w3) /\
    pair = (tag (display_name project id) y, tag (display_name project id) a).






(** A retrieval (request, status check, parsing) that raises [e], the
    requests [hist] having been made before it. *)
Definition retrieval_fails (env : Env) (hist : list string) (url : string) (e : exn) : Prop :=
  requests_get env hist url = Raise e \/
  exists r, requests_get env hist url = Ok r /\
            (raise_for_status env r = Some e \/
             (raise_for_status env r = None /\ read_file env (text r) = Raise e)).

(** A retrieval that yields the frame [d]. *)
Definition retrieval_gives (env : Env) (hist : list string) (url : string)
           (d : GeoDataFrame) : Prop :=
  exists r, requests_get env hist url = Ok r /\
            raise_for_status env r = None /\ read_file env (text r) = Ok d.

(** One of the two retrievals of [fetch_project_data] raises [e]. *)
Definition fetch_fails (env : Env) (hist : list string) (project_id : Py.pyval) (e : exn) : Prop :=
  retrieval_fails env hist (yes_maybe_url project_id) e \/
  exists d, retrieval_gives env hist (yes_maybe_url project_id) d /\
            retrieval_fails env (hist ++ [yes_maybe_url project_id]) (aoi_url project_id) e.

(** The world with one more logger call. *)
Definition logged (lv : level) (msg : string) (w : World) : World :=
  {| requests_made := requests_made w; log := log w ++ [(lv, msg)];
     dirs := dirs w; archives := archives w; hdx_calls := hdx_calls w |}.

(** The world with more requests made. *)
Definition requested (urls : list string) (w : World) : World :=
  {| requests_made := requests_made w ++ urls; log := log w;
     dirs := dirs w; archives := archives w; hdx_calls := hdx_calls w |}.

(** The message [fetch_project_data] logs when [e] is raised. *)
Definition fetch_error_message (project_id : Py.pyval) (e : exn) : string :=
  "Failed to fetch data for project " ++ Py.fmt project_id ++ ": " ++ exn_msg e.

(** The message [aggregate_project_data] logs before it fetches. *)
Definition fetching_message (project : Project) (project_id : Py.pyval) : string :=
  "Fetching project: " ++ display_name project project_id
  ++ " (ID: " ++ Py.fmt project_id ++ ")".

(** The message [create_and_upload_dataset] logs when the export of a
    format raises [e]. *)
Definition export_error_message (fmt : string) (e : exn) : string :=
  "Error exporting to " ++ fmt ++ ": " ++ exn_msg e.

(** A registry call whose description, if it is the creation of the
    dataset, is the one built from the settings. *)
Definition settings_call (config : Config) (c : hdx_call) : Prop :=
  match c with
  | HDataset _ _ notes _ _ _ =>
    notes = attach_project_links_to_description config (Some (DATASET_DESCRIPTION config))
  | _ => True
  end.

(** From [w] to [w'] registry calls were added, all of them built from
    the settings. *)
Definition calls_from (config : Config) (w w' : World) : Prop :=
  exists calls, hdx_calls w' = hdx_calls w ++ calls /\ Forall (settings_call config) calls.

(** Every run of [c] relates the world before to the world after. *)
Definition preserves {A} (R : World -> World -> Prop) (c : M A) : Prop :=
  forall w r w', c w = (r, w') -> R w w'.

(** Every run of [c] adds registry calls built from the settings only. *)
Definition keeps (config : Config) {A} (c : M A) : Prop :=
  preserves (calls_from config) c.



Fixpoint all_chars (p : ascii -> bool) (s : string) : bool :=
  match s with
  | EmptyString => true
  | String c s' => p c && all_chars p s'
  end.

(** What may follow the token: nothing or a slash, then the end of the
    text or the newline that ends it. *)
Definition token_tail (tail : string) : Prop :=
  tail = "" \/ tail = "/" \/ tail = Py.nl \/ tail = ("/" ++ Py.nl)%string.

(** What follows the token does not start with a token character. *)
Definition stops (p : ascii -> bool) (tail : string) : Prop :=
  match tail with
  | EmptyString => True
  | String c _ => p c = false
  end.

(** [token] is a trailing segment [projects/<token>] of [s]. *)
Definition trailing_token (s token : string) : Prop :=
  exists before tail,
    s = (before ++ "projects/" ++ token ++ tail)%string /\
    token <> "" /\ all_chars Re.is_token_char token = true /\ token_tail tail.

(** The member of the archive made from a file of the directory. *)
Definition data_member (f : File) : Member :=
  {| mname := fname f;
     mmode := if (104857600 <? fsize f)%Z then Streamed 4194304 else WholeFile;
     mcontent := fcontent f |}.

(** The world once the files have been added to the archive, in order. *)
Definition add_all (zip_path : string) (files : list File) (w : World) : World :=
  fold_left (fun w f => zip_append zip_path (data_member f) w) files w.

(** The world a successful packaging of [files] leaves. *)
Definition packaged (env : Env) (config : Config) (working_dir zip_path : string)
           (files : list File) (w : World) : World :=
  let filled :=
    zip_append zip_path (readme_member env config)
      (add_all zip_path files (set_archives (store zip_path [] (archives w)) w)) in
  set_dirs (remove_key working_dir (dirs filled)) filled.

(** The statements of [file_to_zip] up to the end of the [with] block. *)
Definition write_archive (env : Env) (config : Config) (working_dir zip_path : string)
  : M unit :=
  zip_create env zip_path ;; fill_archive env config working_dir zip_path.

(** The file a part of a shapefile export becomes. *)
Definition part_file (env : Env) (part : string * GeoDataFrame) : File :=
  {| fname := fst part;
     fsize := encoded_size env "ESRI Shapefile" (snd part);
     fcontent := Vector "ESRI Shapefile" (snd part) |}.

(** No operation fails. *)
Definition fault_free (env : Env) : Prop := forall o, fault env o = None.

(* ================================================================== *)
(** ** Sample settings, frames and environments *)
(* ================================================================== *)

Module Sample.

Definition pt (x y : Z) (vals : list value) : feature :=
  {| geom := {| gtype := Point; coords := [x; y] |}; attrs := vals |}.

Definition square (x : Z) (vals : list value) : feature :=
  {| geom := {| gtype := Polygon; coords := [x; x; x + 1; x + 1]%Z |}; attrs := vals |}.

(** Results of project [p1]: an attribute [severity] and no feature. *)
Definition results_p1 : GeoDataFrame :=
  {| columns := ["severity"]; rows := [] |}.

(** Results of project [p2]: an attribute [confidence] and two features. *)
Definition results_p2 : GeoDataFrame :=
  {| columns := ["confidence"]; rows := [pt 1 2 [VNum 7]; square 3 [VNum 9]] |}.

(** Results of project [p3]: already tagged with a project name. *)
Definition results_p3 : GeoDataFrame :=
  {| columns := ["severity"; "project_name"];
     rows := [pt 5 6 [VNum 2; VStr "Original"]] |}.

Definition aoi : GeoDataFrame :=
  {| columns := []; rows := [square 0 []] |}.

Definition p1 : Project := {| project_id := Some (Py.PStr "p1"); name := Some "First" |}.
Definition p2 : Project := {| project_id := Some (Py.PStr "p2"); name := None |}.
Definition p3 : Project :=
  {| project_id := Some (Py.PStr "https://mapswipe.org/en/projects/p3/"); name := Some "Third" |}.
(** A project the data service does not know. *)
Definition gone : Project := {| project_id := Some (Py.PStr "gone"); name := Some "Gone" |}.

Definition config (projects : list Project) (formats : list string) : Config :=
  {| DATASET_NAME := "MapSwipe Results";
     DATASET_DESCRIPTION := "MapSwipe results aggregated from multiple projects.";
     DATASET_PREFIX := "mapswipe_results";
     DATASET_LOCATION := "Global";
     DATASET_FREQUENCY := "As Needed";
     DATASET_TAGS := ["geodata"];
     DATASET_LICENSE := "hdx-odc-odbl";
     HDX_OWNER_ORG := "org";
     HDX_MAINTAINER := "me";
     PROJECTS := projects;
     FILE_FORMATS := formats |}.

Definition ok (body : string) : Result response :=
  Ok {| status_code := 200; text := body |}.

(** A data service that knows the projects [p1], [p2] and [p3]. *)
Definition service (hist : list string) (url : string) : Result response :=
  if String.eqb url (yes_maybe_url (Py.PStr "p1")) then ok "results p1"
  else if String.eqb url (yes_maybe_url (Py.PStr "p2")) then ok "results p2"
  else if String.eqb url (yes_maybe_url (Py.PStr "p3")) then ok "results p3"
  else if String.eqb url (aoi_url (Py.PStr "p1")) then ok "aoi"
  else if String.eqb url (aoi_url (Py.PStr "p2")) then ok "aoi"
  else if String.eqb url (aoi_url (Py.PStr "p3")) then ok "aoi"
  else Ok {| status_code := 404; text := "Not Found" |}.

Definition http_error : exn :=
  {| exn_type := "HTTPError"; exn_msg := "404 Client Error: Not Found" |}.

Definition status (r : response) : option exn :=
  if ((400 <=? status_code r) && (status_code r <? 600))%Z then Some http_error else None.

Definition parse (body : string) : Result GeoDataFrame :=
  if String.eqb body "results p1" then Ok results_p1
  else if String.eqb body "results p2" then Ok results_p2
  else if String.eqb body "results p3" then Ok results_p3
  else if String.eqb body "aoi" then Ok aoi
  else Raise {| exn_type := "DataSourceError"; exn_msg := "not recognized as a supported format" |}.

Definition env_with (faults : op -> option exn) : Env :=
  {| requests_get := service;
     raise_for_status := status;
     read_file := parse;
     fault := faults;
     encoded_size := fun _ gdf => (1000 * Z.of_nat (length (rows gdf)))%Z;
     getcwd := "/work";
     utc_offset := "+0000";
     utc_stamp := "2025-01-01 00:00:00";
     hdx_url := "https://data.humdata.org/dataset/mapswipe_results" |}.

(** Nothing fails. *)
Definition env : Env := env_with (fun _ => None).

Definition disk_full : exn := {| exn_type := "OSError"; exn_msg := "No space left on device" |}.

(** Writing a GeoJSON file fails. *)
Definition env_write_fails : Env :=
  env_with (fun o => match o with
                     | OpToFile _ _ driver =>
                       if String.eqb driver "GeoJSON" then Some disk_full else None
                     | _ => None
                     end).

Definition busy : exn := {| exn_type := "PermissionError"; exn_msg := "directory in use" |}.

(** Removing a directory fails. *)
Definition env_rmtree_fails : Env :=
  env_with (fun o => match o with OpRmtree _ => Some busy | _ => None end).

(** A directory with a small file, a file of exactly 100 MiB and a file
    one byte larger. *)
Definition small_file : File :=
  {| fname := "aois.geojson"; fsize := 2048; fcontent := Vector "GeoJSON" aoi |}.
Definition exact_file : File :=
  {| fname := "results_yes_maybe.geojson"; fsize := 104857600;
     fcontent := Vector "GeoJSON" results_p2 |}.
Definition large_file : File :=
  {| fname := "results_yes_maybe.gpkg"; fsize := 104857601;
     fcontent := Vector "GPKG" results_p2 |}.

Definition world_with_dir (files : list File) : World :=
  {| requests_made := []; log := []; dirs := [("/work/out", files)];
     archives := []; hdx_calls := [] |}.

(** A collection with point and polygon features. *)
Definition mixed : GeoDataFrame :=
  {| columns := ["confidence"];
     rows := [pt 1 2 [VNum 7]; square 3 [VNum 9]; pt 4 5 [VNum 8]] |}.

End Sample.

(* ================================================================== *)
(** ** Config *)
(* ================================================================== *)

(** The dictionary of settings as [load_config] returns it, seen through
    the keys the constructor of [Config] reads; [None] is an absent key.
    The values are of the types the program uses them at: strings, a
    list of strings, a list of project entries. *)
Record RawConfig := {
  raw_hdx_site : option string;
  raw_hdx_api_key : option string;
  raw_hdx_owner_org : option string;
  raw_hdx_maintainer : option string;
  raw_dataset_name : option string;
  raw_dataset_description : option string;
  raw_dataset_prefix : option string;
  raw_dataset_location : option string;
  raw_dataset_frequency : option string;
  raw_dataset_tags : option (list string);
  raw_dataset_license : option string;
  raw_log_level : option string;
  raw_log_format : option string;
  raw_projects : option (list Project);
  raw_file_formats : option (list string)
}.

(** The argument of [Config(...)]: a string (a path or YAML text), a
    dictionary, or a value of another type. *)
Inductive config_input :=
| FromStr (s : string)
| FromDict (d : RawConfig)
| FromOther.

(** What the constructor of [Config] calls and does not define. *)
Record Loader := {
  (** [os.path.isfile(path)] *)
  isfile : string -> bool;
  (** [yaml.safe_load] on the file at a path, and on a text *)
  load_yaml_file : string -> Result RawConfig;
  load_yaml_text : string -> Result RawConfig;
  (** [os.getenv(name)] *)
  getenv : string -> option string;
  (** [logging.basicConfig(level=..., format=...)]: the exception it
      raises, if any (an unknown level, say) *)
  logging_basic_config : string -> string -> option exn;
  (** [Configuration.create(hdx_site=..., hdx_key=..., user_agent=...)] *)
  configuration_create : string -> string -> Result string
}.

(** The attributes of a [Config] object: those the pipeline uses, in
    [settings], and the others. *)
Record Loaded := {
  settings : Config;
  HDX_SITE : string;
  HDX_API_KEY : string;
  LOG_LEVEL : string;
  LOG_FORMAT : string;
  HDX_URL_PREFIX : string
}.

Definition value_error (msg : string) : exn :=
  {| exn_type := "ValueError"; exn_msg := msg |}.

Definition load_config (loader : Loader) (config_input : config_input) : Result RawConfig :=
  match config_input with
  | FromStr s => if isfile loader s then load_yaml_file loader s else load_yaml_text loader s
  | FromDict d => Ok d
  | FromOther => Raise (value_error "Config must be a path, YAML string, or dictionary")
  end.

(** [d.get(key, default)] *)
Definition get_or {A} (v : option A) (default : A) : A :=
  match v with Some x => x | None => default end.

(** [os.getenv(name, default)]: the variable when it is set, also when it
    is set to the empty string. *)
Definition os_getenv (loader : Loader) (name : string) (default : option string)
  : option string :=
  match getenv loader name with Some v => Some v | None => default end.

(** The truth value of a string or [None]. *)
Definition truthy (v : option string) : bool :=
  match v with Some (String _ _) => true | _ => false end.

Definition default_log_format : string :=
  "%(asctime)s - %(name)s - %(levelname)s - [%(filename)s:%(lineno)d] - %(message)s".

(** [self.DATASET_NAME.lower().replace(" ", "_")] *)
Definition default_prefix (dataset_name : string) : string :=
  Py.replace_char " " "_" (Py.lower dataset_name).

(** The attributes [__init__] sets from the dictionary alone. *)
Definition settings_of (raw : RawConfig) (owner_org maintainer : string) : Config :=
  let dataset_name := get_or (raw_dataset_name raw) "MapSwipe Results" in
  {| DATASET_NAME := dataset_name;
     DATASET_DESCRIPTION :=
       get_or (raw_dataset_description raw)
              "MapSwipe results aggregated from multiple projects.";
     DATASET_PREFIX := get_or (raw_dataset_prefix raw) (default_prefix dataset_name);
     DATASET_LOCATION := get_or (raw_dataset_location raw) "Global";
     DATASET_FREQUENCY := get_or (raw_dataset_frequency raw) "As Needed";
     DATASET_TAGS := get_or (raw_dataset_tags raw) ["geodata"];
     DATASET_LICENSE := get_or (raw_dataset_license raw) "hdx-odc-odbl";
     HDX_OWNER_ORG := owner_org;
     HDX_MAINTAINER := maintainer;
     PROJECTS := get_or (raw_projects raw) [];
     FILE_FORMATS := get_or (raw_file_formats raw) ["geojson"] |}.

Definition credentials_error : exn :=
  value_error "HDX credentials (API key, owner org, maintainer) are required".

(** [Config.__init__]: [load_config], the attributes, [setup_logging]
    (which configures the logger, or raises) and [setup_config]. *)
Definition Config_init (loader : Loader) (input : config_input) : M Loaded :=
  raw <- lift (load_config loader input) ;;
  let hdx_site := get_or (os_getenv loader "HDX_SITE" None) (get_or (raw_hdx_site raw) "demo") in
  let hdx_api_key := os_getenv loader "HDX_API_KEY" (raw_hdx_api_key raw) in
  let hdx_owner_org := os_getenv loader "HDX_OWNER_ORG" (raw_hdx_owner_org raw) in
  let hdx_maintainer := os_getenv loader "HDX_MAINTAINER" (raw_hdx_maintainer raw) in
  let log_level := get_or (raw_log_level raw) "INFO" in
  let log_format := get_or (raw_log_format raw) default_log_format in
  match logging_basic_config loader log_level log_format with
  | Some e => raise e
  | None =>
    match hdx_api_key, hdx_owner_org, hdx_maintainer with
    | Some key, Some owner_org, Some maintainer =>
      if truthy hdx_api_key && truthy hdx_owner_org && truthy hdx_maintainer then
        url_prefix <- lift (configuration_create loader hdx_site key) ;;
        logger_info ("Using HDX site: " ++ url_prefix) ;;
        ret {| settings := settings_of raw owner_org maintainer;
               HDX_SITE := hdx_site;
               HDX_API_KEY := key;
               LOG_LEVEL := log_level;
               LOG_FORMAT := log_format;
               HDX_URL_PREFIX := url_prefix |}
      else raise credentials_error
    | _, _, _ => raise credentials_error
    end
  end.

(** The module run as a script: [main()] with the settings of
    [config.yaml]. *)
Definition program (loader : Loader) (env : Env) : M unit :=
  config <- Config_init loader (FromStr "config.yaml") ;;
  main env (settings config).

(* ================================================================== *)
(** ** Further notions *)
(* ================================================================== *)

(** The configured credential [v] is usable: present and not empty. *)
Definition usable (v : option string) : Prop :=
  exists c s, v = Some (String c s).

(** A character that is neither a space nor an upper-case letter. *)
Definition tidy_char (c : ascii) : bool :=
  negb (Ascii.eqb c " ") && negb (Re.between 65 90 c).

(** The text after the last slash of [s] that a token character follows. *)
Fixpoint after_token_slash (s : string) : option string :=
  match s with
  | EmptyString => None
  | String c s' =>
    match after_token_slash s' with
    | Some r => Some r
    | None =>
      match s' with
      | String c' _ => if Ascii.eqb c "/" && Re.is_token_char c' then Some s' else None
      | EmptyString => None
      end
    end
  end.

(** An address of the data service for some project. *)
Definition service_address (url : string) : Prop :=
  exists id, url = yes_maybe_url id \/ url = aoi_url id.

(** From [w] to [w'] only logger calls and at most [n] requests, all to
    the data service, were added. *)
Definition requests_and_log_only (n : nat) (w w' : World) : Prop :=
  dirs w' = dirs w /\ archives w' = archives w /\ hdx_calls w' = hdx_calls w /\
  (exists reqs, requests_made w' = requests_made w ++ reqs /\
                length reqs <= n /\ Forall service_address reqs) /\
  (exists entries, log w' = log w ++ entries).

Definition key_error : exn := {| exn_type := "KeyError"; exn_msg := "'project_id'" |}.

Definition no_data_message : string :=
  "No valid data fetched from the provided MapSwipe projects.".

(** From [w] to [w'] only archives have changed. *)
Definition archives_only (w w' : World) : Prop :=
  dirs w' = dirs w /\ log w' = log w /\ hdx_calls w' = hdx_calls w /\
  requests_made w' = requests_made w.

(** The directory of a format, as [create_and_upload_dataset] names it. *)
Definition dir_path_of (env : Env) (config : Config) (fmt : string) : string :=
  getcwd env ++ "/" ++ DATASET_PREFIX config ++ "_" ++ fmt.

(** The resource [create_and_upload_dataset] registers for a format. *)
Definition resource_of (config : Config) (fmt : string) : resource :=
  {| res_name := DATASET_PREFIX config ++ "_results_yes_maybe." ++ fmt;
     res_description := "Combined results from MapSwipe projects in "
                        ++ get_format_display_name fmt ++ " format";
     res_format := fmt;
     res_file := zip_name_of config fmt |}.

(** The registry calls of [prepare_dataset]. *)
Definition preparation_calls (config : Config) : list hdx_call :=
  [dataset_call config; HSetTimePeriod;
   HSetExpectedUpdateFrequency (DATASET_FREQUENCY config);
   HAddOtherLocation (DATASET_LOCATION config)]
  ++ map HAddTag (DATASET_TAGS config).

(** The files one format other than ["shp"] is exported to. *)
Definition vector_files (env : Env) (y a : GeoDataFrame) (fmt : string) : list File :=
  let driver := get_driver_for_format fmt in
  [{| fname := "results_yes_maybe." ++ fmt; fsize := encoded_size env driver y;
      fcontent := Vector driver y |};
   {| fname := "aois." ++ fmt; fsize := encoded_size env driver a;
      fcontent := Vector driver a |}].

(** The files the format ["shp"] is exported to. *)
Definition shapefile_files (env : Env) (y a : GeoDataFrame) : list File :=
  map (part_file env) (shapefile_parts y "results_yes_maybe")
  ++ map (part_file env) (shapefile_parts a "aois").

(** The files of a format. *)
Definition exported_files (env : Env) (y a : GeoDataFrame) (fmt : string) : list File :=
  if String.eqb fmt "shp" then shapefile_files env y a else vector_files env y a fmt.

(** The world after the archive of a format has been written and
    registered, its directory being new. *)
Definition format_exported (env : Env) (config : Config) (y a : GeoDataFrame)
           (fmt : string) (w : World) : World :=
  let zip_path := zip_name_of config fmt in
  add_hdx_call (HAddUpdateResource (resource_of config fmt))
    (set_archives
       (store zip_path
              (map data_member (exported_files env y a fmt) ++ [readme_member env config])
              (archives w)) w).

(** The world after the formats [formats] have been exported, in order. *)
Definition formats_exported (env : Env) (config : Config) (y a : GeoDataFrame)
           (formats : list string) (w : World) : World :=
  fold_left (fun w fmt => format_exported env config y a fmt w) formats w.

(** The world with the registry calls [calls] added, in order. *)
Definition add_hdx_calls (calls : list hdx_call) (w : World) : World :=
  fold_left (fun w c => add_hdx_call c w) calls w.

(** The members of the archive of a format. *)
Definition archive_members (env : Env) (config : Config) (y a : GeoDataFrame)
           (fmt : string) : list Member :=
  map data_member (exported_files env y a fmt) ++ [readme_member env config].

Module Demo.

Definition raw : RawConfig :=
  {| raw_hdx_site := None;
     raw_hdx_api_key := Some "secret";
     raw_hdx_owner_org := Some "org";
     raw_hdx_maintainer := Some "me";
     raw_dataset_name := Some "MapSwipe Results Myanmar";
     raw_dataset_description := None;
     raw_dataset_prefix := None;
     raw_dataset_location := None;
     raw_dataset_frequency := None;
     raw_dataset_tags := None;
     raw_dataset_license := None;
     raw_log_level := None;
     raw_log_format := None;
     raw_projects := Some [Sample.p2; Sample.gone];
     raw_file_formats := Some ["geojson"; "shp"] |}.

(** The same settings without the maintainer. *)
Definition raw_no_maintainer : RawConfig :=
  {| raw_hdx_site := None;
     raw_hdx_api_key := Some "secret";
     raw_hdx_owner_org := Some "org";
     raw_hdx_maintainer := None;
     raw_dataset_name := Some "MapSwipe Results Myanmar";
     raw_dataset_description := None;
     raw_dataset_prefix := None;
     raw_dataset_location := None;
     raw_dataset_frequency := None;
     raw_dataset_tags := None;
     raw_dataset_license := None;
     raw_log_level := None;
     raw_log_format := None;
     raw_projects := Some [Sample.p2; Sample.gone];
     raw_file_formats := Some ["geojson"; "shp"] |}.

Definition loader_with (variables : string -> option string) (file : RawConfig) : Loader :=
  {| isfile := fun path => String.eqb path "config.yaml";
     load_yaml_file := fun _ => Ok file;
     load_yaml_text := fun _ =>
       Raise {| exn_type := "YAMLError"; exn_msg := "could not parse" |};
     getenv := variables;
     logging_basic_config := fun _ _ => None;
     configuration_create := fun site _ => Ok ("https://" ++ site ++ ".humdata.org")%string |}.

(** No variable of the environment is set. *)
Definition loader : Loader := loader_with (fun _ => None) raw.

(** [HDX_API_KEY] is set to the empty string. *)
Definition loader_empty_key : Loader :=
  loader_with (fun name => if String.eqb name "HDX_API_KEY" then Some "" else None) raw.

(** Adding a file to an archive fails. *)
Definition env_archive_full : Env :=
  Sample.env_with (fun o => match o with
                            | OpZipWrite _ _ => Some Sample.disk_full
                            | _ => None
                            end).

(** A project entry without identifier. *)
Definition anonymous : Project := {| project_id := None; name := Some "No id" |}.

End Demo.

(* ================================================================== *)
(** * Properties *)
(* ================================================================== *)

(** ** Strings and columns *)

Lemma mem_In x l : Py.mem x l = true <-> In x l.
Proof.
  unfold Py.mem. rewrite existsb_exists. split.
  - intros [y [Hy He]]. apply String.eqb_eq in He. now subst.
  - intros H. exists x. split; [assumption | apply String.eqb_refl].
Qed.

Lemma mem_not_In x l : Py.mem x l = false <-> ~ In x l.
Proof.
  rewrite <- mem_In. destruct (Py.mem x l); split; congruence.
Qed.

Lemma In_union_columns c a b :
  In c (union_columns a b) <-> In c a \/ In c b.
Proof.
  unfold union_columns. rewrite in_app_iff, filter_In. split.
  - intros [H | [H _]]; auto.
  - intros [H | H]; auto.
    destruct (Py.mem c a) eqn:E.
    + left. now apply mem_In.
    + right. split; [assumption | reflexivity].
Qed.



Lemma In_widen l : forall cols c,
  In c (widen cols l) <-> In c cols \/ exists d, In d l /\ In c (columns d).
Proof.
  unfold widen. induction l as [| d l IH]; intros cols c; simpl.
  - split; [now left | intros [H | [d [[] _]]]; assumption].
  - rewrite IH, In_union_columns. split.
    + intros [[H | H] | [d' [Hd Hc]]]; [now left | right; exists d; auto | right; exists d'; auto].
    + intros [H | [d' [[<- | Hd] Hc]]]; [left; now left | left; now right | right; exists d'; auto].
Qed.

Lemma incl_widen cols l : incl cols (widen cols l).
Proof. intros c H. apply In_widen. now left. Qed.

Lemma widen_cons cols d l :
  widen cols (d :: l) = widen (union_columns cols (columns d)) l.
Proof. reflexivity. Qed.

(** ** Cells and re-alignment *)








(** ** The accumulator *)


Lemma NoDup_union_columns a b :
  NoDup a -> NoDup b -> NoDup (union_columns a b).
Proof.
  intros Ha Hb. unfold union_columns.
  apply NoDup_app; [assumption | now apply NoDup_filter |].
  intros c Hc Hf. apply filter_In in Hf. destruct Hf as [_ Hf].
  apply negb_true_iff, mem_not_In in Hf. contradiction.
Qed.

Lemma well_formed_concat a b :
  well_formed a -> well_formed b -> well_formed (concat a b).
Proof.
  intros [Ha _] [Hb _]. split; simpl.
  - now apply NoDup_union_columns.
  - apply Forall_app. split; apply Forall_forall; intros r Hr;
      apply in_map_iff in Hr; destruct Hr as [r0 [<- _]];
      unfold reindex; simpl; apply length_map.
Qed.







(** ** The fetcher *)

Ltac run := unfold bind, ret, raise, try_except, lift, check_status, logger_error,
                   logger_info, logger_warning, logger_call, http_get; simpl.

Lemma retrieve_gives env url w d :
  retrieval_gives env (requests_made w) url d ->
  retrieve env url w = (Ok d, requested [url] w).
Proof.
  intros [r [Hget [Hst Hread]]]. unfold retrieve. run.
  rewrite Hget. unfold check_status. rewrite Hst. run. now rewrite Hread.
Qed.

Lemma retrieve_fails env url w e :
  retrieval_fails env (requests_made w) url e ->
  retrieve env url w = (Raise e, requested [url] w).
Proof.
  intros [Hget | [r [Hget [Hst | [Hst Hread]]]]]; unfold retrieve; run; rewrite Hget;
    try reflexivity; unfold check_status; rewrite Hst; run; [reflexivity |].
  now rewrite Hread.
Qed.

(** A retrieval either yields a frame that [read_file] produced or
    raises; it makes exactly one request and nothing else. *)
Lemma retrieve_cases env url w :
  (exists d, retrieval_gives env (requests_made w) url d /\
             retrieve env url w = (Ok d, requested [url] w)) \/
  (exists e, retrieval_fails env (requests_made w) url e /\
             retrieve env url w = (Raise e, requested [url] w)).
Proof.
  destruct (requests_get env (requests_made w) url) as [r | e] eqn:Hget.
  - destruct (raise_for_status env r) as [e |] eqn:Hst.
    + right. exists e.
      assert (H : retrieval_fails env (requests_made w) url e)
        by (right; exists r; auto).
      split; [assumption | now apply retrieve_fails].
    + destruct (read_file env (text r)) as [d | e] eqn:Hread.
      * left. exists d.
        assert (H : retrieval_gives env (requests_made w) url d)
          by (exists r; auto).
        split; [assumption | now apply retrieve_gives].
      * right. exists e.
        assert (H : retrieval_fails env (requests_made w) url e)
          by (right; exists r; auto).
        split; [assumption | now apply retrieve_fails].
  - right. exists e.
    assert (H : retrieval_fails env (requests_made w) url e) by now left.
    split; [assumption | now apply retrieve_fails].
Qed.

Lemma requested_requested a b w :
  requested b (requested a w) = requested (a ++ b) w.
Proof. unfold requested. simpl. now rewrite app_assoc. Qed.

(** When a retrieval fails the pair is [(None, None)], the error is logged
    and each address has been requested at most once. *)
Lemma fetch_project_data_fails env id w e :
  fetch_fails env (requests_made w) id e ->
  exists reqs,
    (reqs = [yes_maybe_url id] \/ reqs = [yes_maybe_url id; aoi_url id]) /\
    fetch_project_data env id w
    = (Ok (None, None), logged ERROR (fetch_error_message id e) (requested reqs w)).
Proof.
  intros [Hyes | [d [Hyes Haoi]]]; unfold fetch_project_data.
  - exists [yes_maybe_url id]. split; [now left |].
    unfold try_except, bind at 1. now rewrite (retrieve_fails _ _ _ _ Hyes).
  - exists [yes_maybe_url id; aoi_url id]. split; [now right |].
    unfold try_except, bind at 1. rewrite (retrieve_gives _ _ _ _ Hyes).
    unfold bind at 1. rewrite (retrieve_fails env (aoi_url id) (requested [yes_maybe_url id] w) e Haoi).
    now rewrite requested_requested.
Qed.

(** When both retrievals succeed the pair holds the two frames and nothing
    is logged. *)
Lemma fetch_project_data_gives env id w y a :
  retrieval_gives env (requests_made w) (yes_maybe_url id) y ->
  retrieval_gives env (requests_made w ++ [yes_maybe_url id]) (aoi_url id) a ->
  fetch_project_data env id w
  = (Ok (Some y, Some a), requested [yes_maybe_url id; aoi_url id] w).
Proof.
  intros Hyes Haoi. unfold fetch_project_data, try_except, bind at 1.
  rewrite (retrieve_gives _ _ _ _ Hyes). unfold bind at 1.
  rewrite (retrieve_gives env (aoi_url id) (requested [yes_maybe_url id] w) a Haoi).
  now rewrite requested_requested.
Qed.

(** [fetch_project_data] always returns: a pair of frames that
    [read_file] produced, or [(None, None)] after a failed retrieval. *)
Lemma fetch_project_data_cases env id w :
  (exists y a,
     retrieval_gives env (requests_made w) (yes_maybe_url id) y /\
     retrieval_gives env (requests_made w ++ [yes_maybe_url id]) (aoi_url id) a /\
     fetch_project_data env id w
     = (Ok (Some y, Some a), requested [yes_maybe_url id; aoi_url id] w)) \/
  (exists e reqs,
     fetch_fails env (requests_made w) id e /\
     fetch_project_data env id w
     = (Ok (None, None), logged ERROR (fetch_error_message id e) (requested reqs w))).
Proof.
  destruct (retrieve_cases env (yes_maybe_url id) w) as [[y [Hy _]] | [e [He _]]].
  - destruct (retrieve_cases env (aoi_url id) (requested [yes_maybe_url id] w))
      as [[a [Ha _]] | [e [He _]]].
    + left. exists y, a. repeat split; try assumption.
      now apply fetch_project_data_gives.
    + right. exists e.
      assert (H : fetch_fails env (requests_made w) id e) by (right; exists y; auto).
      destruct (fetch_project_data_fails env id w e H) as [reqs [_ Hr]].
      exists reqs. auto.
  - right. exists e.
    assert (H : fetch_fails env (requests_made w) id e) by now left.
    destruct (fetch_project_data_fails env id w e H) as [reqs [_ Hr]].
    exists reqs. auto.
Qed.

(** ** The resolver never raises *)

Lemma extract_project_id_cases raw w :
  exists id,
    extract_project_id raw w = (Ok id, w) \/
    (id = raw /\ exists s, raw = Py.PStr s /\
     extract_project_id raw w
     = (Ok raw, logged WARNING ("Could not extract project ID from URL: " ++ s) w)).
Proof.
  destruct raw as [s | r]; simpl.
  - destruct (Py.startswith s "http").
    + destruct (Re.search s) as [token |].
      * exists (Py.PStr token). now left.
      * exists (Py.PStr s). right. split; [reflexivity |]. exists s. now split.
    + exists (Py.PStr s). now left.
  - exists (Py.PNonStr r). now left.
Qed.

Lemma extract_project_id_requests raw w id w1 :
  extract_project_id raw w = (Ok id, w1) -> requests_made w1 = requests_made w.
Proof.
  intros H. destruct (extract_project_id_cases raw w) as [id' [H' | [_ [s [_ H']]]]];
    rewrite H' in H; inversion H; reflexivity.
Qed.

(** ** The aggregation loop *)

Lemma aggregate_step_unfold env acc project raw id w w1 :
  project_id project = Some raw ->
  extract_project_id raw w = (Ok id, w1) ->
  aggregate_step env acc project w
  = match fetch_project_data env id (logged INFO (fetching_message project id) w1) with
    | (Ok (Some y, Some a), w') =>
      (Ok (accumulate (fst acc) (tag (display_name project id) y),
           accumulate (snd acc) (tag (display_name project id) a)), w')
    | (Ok _, w') => (Ok acc, w')
    | (Raise e, w') => (Raise e, w')
    end.
Proof.
  intros Hraw Hid. destruct acc as [cy ca].
  unfold aggregate_step, getitem_project_id. rewrite Hraw.
  unfold bind, ret, logger_info, logger_call, logged, fetching_message.
  rewrite Hid. simpl.
  match goal with
  | |- context [fetch_project_data env id ?w2] =>
    destruct (fetch_project_data env id w2) as [[[[y |] [a |]] | e] w']; reflexivity
  end.
Qed.

Lemma aggregate_step_missing_id env acc project w :
  project_id project = None ->
  aggregate_step env acc project w
  = (Raise {| exn_type := "KeyError"; exn_msg := "'project_id'" |}, w).
Proof.
  intros H. destruct acc. unfold aggregate_step, getitem_project_id. now rewrite H.
Qed.

Lemma fetched_frames_read env id w y a w' :
  fetch_project_data env id w = (Ok (Some y, Some a), w') ->
  (exists body, read_file env body = Ok y) /\ (exists body, read_file env body = Ok a).
Proof.
  intros H.
  destruct (fetch_project_data_cases env id w)
    as [[y' [a' [[ry [_ [_ Hy]]] [[ra [_ [_ Ha]]] H']]]] | [e [reqs [_ H']]]];
    rewrite H' in H; inversion H; subst.
  split; [exists (text ry) | exists (text ra)]; assumption.
Qed.

(** A step leaves the accumulators as they are or merges a fetched and
    tagged pair into them. *)
Lemma aggregate_step_outcome env acc project w acc' w' :
  aggregate_step env acc project w = (Ok acc', w') ->
  acc' = acc \/
  exists pair, fetched_and_tagged env [project] pair /\
               acc' = (accumulate (fst acc) (fst pair), accumulate (snd acc) (snd pair)).
Proof.
  intros H. destruct (project_id project) as [raw |] eqn:Hraw.
  - destruct (extract_project_id_cases raw w) as [id Hid].
    assert (Hex : exists w1, extract_project_id raw w = (Ok id, w1)).
    { destruct Hid as [Hid | [-> [s [_ Hid]]]]; eexists; exact Hid. }
    destruct Hex as [w1 Hw1].
    rewrite (aggregate_step_unfold env acc project raw id w w1 Hraw Hw1) in H.
    destruct (fetch_project_data env id (logged INFO (fetching_message project id) w1))
      as [[[[y |] [a |]] | e] w2] eqn:Hf; inversion H; subst; auto.
    right.
    exists (tag (display_name project id) y, tag (display_name project id) a).
    split; [| reflexivity].
    exists project, raw, id, w, w1, (logged INFO (fetching_message project id) w1), w', y, a.
    repeat split; auto. now left.
  - rewrite aggregate_step_missing_id in H by assumption. discriminate.
Qed.

Lemma fetched_and_tagged_incl env ps qs pair :
  incl ps qs -> fetched_and_tagged env ps pair -> fetched_and_tagged env qs pair.
Proof.
  intros Hincl (project & raw & id & w0 & w1 & w2 & w3 & y & a & Hin & H).
  exists project, raw, id, w0, w1, w2, w3, y, a. split; [now apply Hincl | exact H].
Qed.

Lemma aggregate_loop_cons env project rest acc :
  aggregate_loop env (project :: rest) acc
  = bind (aggregate_step env acc project) (aggregate_loop env rest).
Proof. reflexivity. Qed.

Lemma combine_all_snoc l d : combine_all (l ++ [d]) = accumulate (combine_all l) d.
Proof. unfold combine_all. now rewrite fold_left_app. Qed.

(** The accumulators the loop returns are the fetched and tagged frames,
    merged in order. *)
Lemma aggregate_loop_combines env projects : forall ly la w res w',
  aggregate_loop env projects (combine_all ly, combine_all la) w = (Ok res, w') ->
  exists pairs,
    Forall (fetched_and_tagged env projects) pairs /\
    res = (combine_all (ly ++ map fst pairs), combine_all (la ++ map snd pairs)).
Proof.
  induction projects as [| project rest IH]; intros ly la w res w' H.
  - exists []. split; [constructor |]. simpl. rewrite !app_nil_r.
    simpl in H. unfold ret in H. now inversion H.
  - rewrite aggregate_loop_cons in H. unfold bind in H.
    destruct (aggregate_step env (combine_all ly, combine_all la) project w)
      as [[acc' | e] w1] eqn:Hstep; [| discriminate H].
    destruct (aggregate_step_outcome _ _ _ _ _ _ Hstep) as [-> | [pair [Hp ->]]].
    + destruct (IH ly la w1 res w' H) as [pairs [Hall Hres]].
      exists pairs. split; [| assumption].
      eapply Forall_impl; [| exact Hall]. intros p.
      apply fetched_and_tagged_incl. now apply incl_tl.
    + simpl in H. rewrite <- !combine_all_snoc in H.
      destruct (IH _ _ w1 res w' H) as [pairs [Hall Hres]].
      exists (pair :: pairs). split.
      * constructor.
        -- eapply fetched_and_tagged_incl; [| exact Hp].
           intros x [<- | []]. now left.
        -- eapply Forall_impl; [| exact Hall]. intros p.
           apply fetched_and_tagged_incl. now apply incl_tl.
      * rewrite Hres. simpl. now rewrite <- !app_assoc.
Qed.

Lemma well_formed_tag n d : well_formed d -> well_formed (tag n d).
Proof.
  intros [Hnd Hlen]. unfold tag.
  destruct (Py.mem "project_name" (columns d)) eqn:E; [now split |].
  apply mem_not_In in E. split; simpl.
  - apply NoDup_app; [assumption | repeat constructor; intros [] |].
    intros c Hc [<- | []]. contradiction.
  - rewrite Forall_forall in *. intros r Hr.
    apply in_map_iff in Hr. destruct Hr as [r0 [<- Hr0]]. simpl.
    rewrite !length_app. simpl. now rewrite (Hlen r0 Hr0).
Qed.

Lemma fetched_and_tagged_well_formed env projects pair :
  (forall body d, read_file env body = Ok d -> well_formed d) ->
  fetched_and_tagged env projects pair ->
  well_formed (fst pair) /\ well_formed (snd pair).
Proof.
  intros Hread (project & raw & id & w0 & w1 & w2 & w3 & y & a & _ & _ & _ & Hf & ->).
  destruct (fetched_frames_read _ _ _ _ _ _ Hf) as [[by_ Hy] [ba Ha]].
  split; simpl; apply well_formed_tag; eapply Hread; eassumption.
Qed.

(* ================================================================== *)
(** ** Schema widening (C1) *)
(* ================================================================== *)


Lemma sample_parse_well_formed body d :
  Sample.parse body = Ok d -> well_formed d.
Proof.
  unfold Sample.parse.
  repeat match goal with
         | |- context [String.eqb body ?s] => destruct (String.eqb body s)
         end;
    intros H; inversion H; subst; split; simpl;
    repeat constructor; simpl; intuition discriminate.
Qed.



(* ================================================================== *)
(** ** Fault isolation (C2) *)
(* ================================================================== *)

(** C2.  [fetch_project_data] always returns normally.  If one of its two
    retrievals raises, the call returns [(None, None)] (nothing is
    raised), the error is logged, and the requests made by the call are
    the first address, or the first and the second: none is repeated.  In
    the aggregation loop the step of that project leaves both accumulators
    as they are and the loop goes on with the remaining projects. *)
Theorem fetch_failure_is_isolated env :
  (forall id w, exists pair w', fetch_project_data env id w = (Ok pair, w')) /\
  (forall id w e,
     fetch_fails env (requests_made w) id e ->
     exists reqs,
       (reqs = [yes_maybe_url id] \/ reqs = [yes_maybe_url id; aoi_url id]) /\
       fetch_project_data env id w
       = (Ok (None, None), logged ERROR (fetch_error_message id e) (requested reqs w))) /\
  (forall project raw id rest acc w w1 e,
     project_id project = Some raw ->
     extract_project_id raw w = (Ok id, w1) ->
     fetch_fails env (requests_made w) id e ->
     exists w2,
       aggregate_step env acc project w = (Ok acc, w2) /\
       In (ERROR, fetch_error_message id e) (log w2) /\
       aggregate_loop env (project :: rest) acc w = aggregate_loop env rest acc w2).
Proof.
  split; [| split].
  - intros id w.
    destruct (fetch_project_data_cases env id w) as [[y [a [_ [_ H]]]] | [e [reqs [_ H]]]];
      rewrite H; eauto.
  - intros id w e. apply fetch_project_data_fails.
  - intros project raw id rest acc w w1 e Hraw Hid Hfail.
    set (w1' := logged INFO (fetching_message project id) w1).
    assert (Hreq : requests_made w1' = requests_made w)
      by (simpl; eapply extract_project_id_requests; eassumption).
    rewrite <- Hreq in Hfail.
    destruct (fetch_project_data_fails env id w1' e Hfail) as [reqs [_ Hf]].
    exists (logged ERROR (fetch_error_message id e) (requested reqs w1')).
    assert (Hstep : aggregate_step env acc project w
                    = (Ok acc, logged ERROR (fetch_error_message id e) (requested reqs w1'))).
    { rewrite (aggregate_step_unfold env acc project raw id w w1 Hraw Hid).
      fold w1'. now rewrite Hf. }
    split; [exact Hstep |]. split.
    + simpl. apply in_or_app. right. now left.
    + rewrite aggregate_loop_cons. unfold bind. now rewrite Hstep.
Qed.

Lemma fetch_failure_is_isolated_witness :
  exists w2,
    aggregate_step Sample.env (empty_frame, empty_frame) Sample.gone initial_world
    = (Ok (empty_frame, empty_frame), w2) /\
    In (ERROR, fetch_error_message (Py.PStr "gone") Sample.http_error) (log w2) /\
    aggregate_loop Sample.env [Sample.gone; Sample.p2] (empty_frame, empty_frame) initial_world
    = aggregate_loop Sample.env [Sample.p2] (empty_frame, empty_frame) w2.
Proof.
  destruct (fetch_failure_is_isolated Sample.env) as [_ [_ Hrun]].
  apply (Hrun Sample.gone (Py.PStr "gone") (Py.PStr "gone") [Sample.p2]
              (empty_frame, empty_frame) initial_world initial_world Sample.http_error).
  - reflexivity.
  - reflexivity.
  - left. right. exists {| status_code := 404; text := "Not Found" |}.
    split; [reflexivity |]. left. reflexivity.
Defined.

(* ================================================================== *)
(** ** Tagging with the project name (C7) *)
(* ================================================================== *)


Lemma Forall2_map_right {A B} (P : A -> B -> Prop) (f : A -> B) l :
  (forall x, In x l -> P x (f x)) -> Forall2 P l (map f l).
Proof.
  induction l as [| x l IH]; intros H; simpl; constructor.
  - apply H. now left.
  - apply IH. intros y Hy. apply H. now right.
Qed.

Lemma flat_map_map_inputs {A B C} (f : B -> list C) (g : A -> B) l :
  flat_map f (map g l) = flat_map (fun x => f (g x)) l.
Proof. induction l as [| x l IH]; simpl; [reflexivity | now rewrite IH]. Qed.






(* ================================================================== *)
(** ** The project identifier resolver (C6) *)
(* ================================================================== *)

Lemma strip_prefix_sound p : forall s r,
  Re.strip_prefix p s = Some r -> s = (p ++ r)%string.
Proof.
  induction p as [| a p IH]; intros s r H; simpl in *.
  - now inversion H.
  - destruct s as [| b s]; [discriminate |].
    destruct (Ascii.eqb a b) eqn:E; [| discriminate].
    apply Ascii.eqb_eq in E. subst. f_equal. now apply IH.
Qed.

Lemma span_sound p : forall s t r,
  Re.span p s = (t, r) -> s = (t ++ r)%string /\ all_chars p t = true.
Proof.
  induction s as [| c s IH]; intros t r H; simpl in H.
  - inversion H. now split.
  - destruct (p c) eqn:E.
    + destruct (Re.span p s) as [t' r'] eqn:Hs. inversion H; subst.
      destruct (IH t' r eq_refl) as [-> Hall]. simpl. rewrite E. now split.
    + inversion H. now split.
Qed.

Lemma span_complete p : forall t tail,
  all_chars p t = true -> stops p tail -> Re.span p (t ++ tail) = (t, tail).
Proof.
  induction t as [| c t IH]; intros tail Hall Hstop; simpl in *.
  - destruct tail as [| c tail]; [reflexivity |]. simpl in *. now rewrite Hstop.
  - apply andb_true_iff in Hall. destruct Hall as [Hc Hall].
    rewrite Hc. now rewrite (IH tail Hall Hstop).
Qed.

Lemma at_end_sound s : Re.at_end s = true -> s = "" \/ s = Py.nl.
Proof.
  unfold Re.at_end. intros H. apply orb_true_iff in H.
  destruct H as [H | H]; apply String.eqb_eq in H; auto.
Qed.

Lemma slash_end_sound tail : Re.slash_end tail = true -> token_tail tail.
Proof.
  unfold Re.slash_end, token_tail. intros H. apply orb_true_iff in H.
  destruct H as [H | H].
  - destruct (at_end_sound _ H) as [-> | ->]; auto.
  - destruct tail as [| c tail]; [discriminate |].
    apply andb_true_iff in H. destruct H as [Hc H].
    apply Ascii.eqb_eq in Hc. subst.
    destruct (at_end_sound _ H) as [-> | ->]; auto.
Qed.

Lemma token_tail_complete tail :
  token_tail tail -> Re.slash_end tail = true /\ stops Re.is_token_char tail.
Proof.
  intros [-> | [-> | [-> | ->]]]; split; reflexivity || exact I.
Qed.

Lemma match_here_sound s token :
  Re.match_here s = Some token ->
  exists tail, s = ("projects/" ++ token ++ tail)%string /\ token <> "" /\
               all_chars Re.is_token_char token = true /\ token_tail tail.
Proof.
  unfold Re.match_here. intros H.
  destruct (Re.strip_prefix "projects/" s) as [rest |] eqn:Hp; [| discriminate].
  apply strip_prefix_sound in Hp.
  destruct (Re.span Re.is_token_char rest) as [t tail] eqn:Hs.
  apply span_sound in Hs. destruct Hs as [-> Hall].
  destruct t as [| c t]; [discriminate |].
  destruct (Re.slash_end tail) eqn:He; [| discriminate].
  inversion H; subst. exists tail.
  repeat split; [discriminate | assumption | now apply slash_end_sound].
Qed.

Lemma match_here_complete token tail :
  token <> "" -> all_chars Re.is_token_char token = true -> token_tail tail ->
  Re.match_here ("projects/" ++ token ++ tail) = Some token.
Proof.
  intros Hne Hall Htail. destruct (token_tail_complete _ Htail) as [He Hstop].
  unfold Re.match_here.
  change (Re.strip_prefix "projects/" ("projects/" ++ token ++ tail))
    with (Some (token ++ tail)%string).
  cbv beta iota. rewrite (span_complete _ _ _ Hall Hstop).
  destruct token; [congruence |]. now rewrite He.
Qed.

Lemma search_sound : forall s token,
  Re.search s = Some token -> trailing_token s token.
Proof.
  induction s as [| c s IH]; intros token H.
  - simpl in H. discriminate.
  - simpl in H. destruct (Re.match_here (String c s)) as [t |] eqn:Hm.
    + inversion H; subst.
      destruct (match_here_sound _ _ Hm) as [tail [Hs Hrest]].
      exists "", tail. split; [exact Hs | exact Hrest].
    + destruct (IH token H) as [before [tail [Hs Hrest]]].
      exists (String c before), tail. split; [| exact Hrest].
      simpl. now rewrite Hs.
Qed.

Lemma search_here s token :
  Re.match_here s = Some token -> Re.search s = Some token.
Proof. intros H. destruct s; cbn [Re.search]; now rewrite H. Qed.

Lemma search_complete : forall s token,
  trailing_token s token -> Re.search s <> None.
Proof.
  intros s token [before [tail [-> [Hne [Hall Htail]]]]].
  induction before as [| c before IH].
  - change ("" ++ "projects/" ++ token ++ tail)%string
      with ("projects/" ++ token ++ tail)%string.
    rewrite (search_here _ _ (match_here_complete _ _ Hne Hall Htail)). discriminate.
  - cbn [append Re.search].
    match goal with
    | |- context [Re.match_here ?x] => destruct (Re.match_here x)
    end; [discriminate | exact IH].
Qed.





(* ================================================================== *)
(** ** The archive packager (C4, C8, C9) *)
(* ================================================================== *)

Lemma lookup_store {V} k (v : V) : forall l, lookup k (store k v l) = Some v.
Proof.
  induction l as [| [k' v'] l IH]; simpl.
  - now rewrite String.eqb_refl.
  - destruct (String.eqb k k') eqn:E; simpl.
    + now rewrite String.eqb_refl.
    + now rewrite E.
Qed.

Lemma lookup_remove_key {V} k : forall l : list (string * V), lookup k (remove_key k l) = None.
Proof.
  induction l as [| [k' v'] l IH]; simpl; [reflexivity |].
  destruct (String.eqb k k') eqn:E; simpl; [assumption | now rewrite E].
Qed.

Lemma members_of_zip_append zp m w :
  members_of (zip_append zp m w) zp = members_of w zp ++ [m].
Proof. unfold members_of at 1, zip_append. simpl. now rewrite lookup_store. Qed.

Lemma members_of_add_all zp files : forall w,
  members_of (add_all zp files w) zp = members_of w zp ++ map data_member files.
Proof.
  unfold add_all. induction files as [| f files IH]; intros w; simpl.
  - now rewrite app_nil_r.
  - now rewrite IH, members_of_zip_append, <- app_assoc.
Qed.

Lemma dirs_add_all zp files : forall w, dirs (add_all zp files w) = dirs w.
Proof.
  unfold add_all. induction files as [| f files IH]; intros w; simpl;
    [reflexivity | now rewrite IH].
Qed.

Lemma log_add_all zp files : forall w, log (add_all zp files w) = log w.
Proof.
  unfold add_all. induction files as [| f files IH]; intros w; simpl;
    [reflexivity | now rewrite IH].
Qed.

(** The threshold of [file_to_zip]: strictly more than 100 * 1024 * 1024
    bytes. *)
Lemma is_large_spec size : is_large size = (104857600 <? size)%Z.
Proof.
  unfold is_large, file_size_mb.
  destruct (104857600 <? size)%Z eqn:E.
  - apply negb_true_iff. apply not_true_iff_false. rewrite Qle_bool_iff.
    apply Z.ltb_lt in E. unfold Qle, Qdiv, Qmult, Qinv. simpl. lia.
  - apply negb_false_iff. rewrite Qle_bool_iff.
    apply Z.ltb_ge in E. unfold Qle, Qdiv, Qmult, Qinv. simpl. lia.
Qed.

(** The body of the loop adds the member of the file or raises and
    changes nothing. *)
Lemma add_file_cases env wd zp f w :
  add_file env wd zp f w = (Ok tt, zip_append zp (data_member f) w) \/
  exists e, add_file env wd zp f w = (Raise e, w).
Proof.
  unfold add_file, getsize, bind, perform, ret, data_member.
  destruct (fault env (OpGetsize wd (fname f))) as [e |]; [right; now exists e |].
  rewrite is_large_spec.
  destruct (104857600 <? fsize f)%Z.
  - destruct (fault env (OpOpen wd (fname f))) as [e |]; [right; now exists e |].
    destruct (fault env (OpZipOpen zp (fname f))) as [e |]; [right; now exists e |].
    now left.
  - destruct (fault env (OpZipWrite zp (fname f))) as [e |]; [right; now exists e |].
    now left.
Qed.

Lemma for_each_add_file env wd zp files : forall w w',
  for_each files (add_file env wd zp) w = (Ok tt, w') -> w' = add_all zp files w.
Proof.
  induction files as [| f files IH]; intros w w' H; simpl in H.
  - unfold ret in H. now inversion H.
  - unfold bind in H.
    destruct (add_file_cases env wd zp f w) as [Hf | [e Hf]]; rewrite Hf in H.
    + apply IH in H. exact H.
    + discriminate.
Qed.

Lemma for_each_add_file_total env wd zp files : forall w,
  fault_free env ->
  for_each files (add_file env wd zp) w = (Ok tt, add_all zp files w).
Proof.
  intros w Hfree. revert w.
  induction files as [| f files IH]; intros w; simpl; [reflexivity |].
  unfold bind. destruct (add_file_cases env wd zp f w) as [Hf | [e Hf]].
  - rewrite Hf. apply IH.
  - exfalso. revert Hf. unfold add_file, getsize, bind, perform, ret.
    rewrite !Hfree. destruct (is_large (fsize f)); rewrite ?Hfree; discriminate.
Qed.

Lemma fill_archive_ok env config wd zp w w' :
  fill_archive env config wd zp w = (Ok tt, w') ->
  exists files,
    lookup wd (dirs w) = Some files /\
    w' = zip_append zp (readme_member env config) (add_all zp files w).
Proof.
  unfold fill_archive, bind at 1, iterdir. intros H.
  destruct (fault env (OpIterdir wd)); [discriminate |].
  destruct (lookup wd (dirs w)) as [files |]; [| discriminate].
  exists files. split; [reflexivity |].
  unfold bind at 1 in H.
  destruct (for_each files (add_file env wd zp) w) as [[[] | e] w1] eqn:Hloop;
    [| discriminate].
  apply for_each_add_file in Hloop. subst w1.
  unfold perform in H.
  destruct (fault env (OpZipWritestr zp "Readme.txt")); [discriminate |].
  now inversion H.
Qed.

Lemma write_archive_ok env config wd zp w w' :
  write_archive env config wd zp w = (Ok tt, w') ->
  exists files,
    lookup wd (dirs w) = Some files /\
    w' = zip_append zp (readme_member env config)
           (add_all zp files (set_archives (store zp [] (archives w)) w)).
Proof.
  unfold write_archive, bind, zip_create, perform. intros H.
  destruct (fault env (OpZipFile zp)); [discriminate |].
  apply fill_archive_ok in H. exact H.
Qed.

Lemma file_to_zip_unfold env config wd zp w :
  file_to_zip env config wd zp w
  = match write_archive env config wd zp w with
    | (Ok _, w2) =>
      match fault env (OpRmtree wd) with
      | Some e => (Raise e, w2)
      | None => (Ok zp, set_dirs (remove_key wd (dirs w2)) w2)
      end
    | (Raise e, w2) => (Raise e, w2)
    end.
Proof.
  unfold file_to_zip, write_archive, bind, rmtree, perform, ret.
  destruct (zip_create env zp w) as [[[] | e] w1]; [| reflexivity].
  destruct (fill_archive env config wd zp w1) as [[[] | e] w2]; [| reflexivity].
  destruct (fault env (OpRmtree wd)); reflexivity.
Qed.

(** A packaging call that returns leaves the archive and no directory. *)
Lemma file_to_zip_ok env config wd zp w r w' :
  file_to_zip env config wd zp w = (Ok r, w') ->
  r = zp /\ exists files,
    lookup wd (dirs w) = Some files /\ w' = packaged env config wd zp files w.
Proof.
  rewrite file_to_zip_unfold. intros H.
  destruct (write_archive env config wd zp w) as [[[] | e] w2] eqn:Hw; [| discriminate].
  destruct (fault env (OpRmtree wd)); [discriminate |].
  inversion H; subst. split; [reflexivity |].
  destruct (write_archive_ok _ _ _ _ _ _ Hw) as [files [Hl ->]].
  exists files. now split.
Qed.

Lemma fill_archive_total env config wd zp w files :
  fault_free env -> lookup wd (dirs w) = Some files ->
  fill_archive env config wd zp w
  = (Ok tt, zip_append zp (readme_member env config) (add_all zp files w)).
Proof.
  intros Hfree Hl. unfold fill_archive, bind at 1, iterdir.
  rewrite Hfree, Hl. unfold bind at 1.
  rewrite (for_each_add_file_total env wd zp files w Hfree).
  unfold perform. now rewrite Hfree.
Qed.

Lemma file_to_zip_total env config wd zp w files :
  fault_free env -> lookup wd (dirs w) = Some files ->
  file_to_zip env config wd zp w = (Ok zp, packaged env config wd zp files w).
Proof.
  intros Hfree Hl. rewrite file_to_zip_unfold.
  unfold write_archive, bind at 1, zip_create, perform. rewrite !Hfree.
  rewrite (fill_archive_total env config wd zp
             (set_archives (store zp [] (archives w)) w) files Hfree Hl).
  reflexivity.
Qed.

Lemma members_of_packaged env config wd zp files w :
  members_of (packaged env config wd zp files w) zp
  = map data_member files ++ [readme_member env config].
Proof.
  unfold packaged. cbv zeta.
  change (members_of (set_dirs ?d ?x) zp) with (members_of x zp).
  rewrite members_of_zip_append, members_of_add_all.
  unfold members_of at 1. simpl. now rewrite lookup_store.
Qed.

Lemma data_member_modes files :
  Forall2 (fun f m =>
             mname m = fname f /\ mcontent m = fcontent f /\
             ((fsize f <= 100 * 1024 * 1024)%Z -> mmode m = WholeFile) /\
             ((100 * 1024 * 1024 < fsize f)%Z -> mmode m = Streamed (4 * 1024 * 1024)))
          files (map data_member files).
Proof.
  apply Forall2_map_right. intros f _. unfold data_member. simpl.
  repeat split.
  - intros H. destruct (104857600 <? fsize f)%Z eqn:E; [| reflexivity].
    apply Z.ltb_lt in E. lia.
  - intros H. destruct (104857600 <? fsize f)%Z eqn:E; [reflexivity |].
    apply Z.ltb_ge in E. lia.
Qed.

(** C4, as amended.  In an archive the packager returns, the members are
    the files of the directory, in order, then the manifest; a file is
    added by the whole-file path [zf.write] exactly when its size is at
    most 100 * 1024 * 1024 bytes and is streamed through the buffer of
    4 * 1024 * 1024 bytes exactly when its size is strictly above
    100 * 1024 * 1024 bytes. *)
Theorem packager_streams_strictly_above_threshold env config wd zp w r w' :
  file_to_zip env config wd zp w = (Ok r, w') ->
  exists files members,
    lookup wd (dirs w) = Some files /\
    members_of w' zp = members ++ [readme_member env config] /\
    Forall2 (fun f m =>
               mname m = fname f /\ mcontent m = fcontent f /\
               ((fsize f <= 100 * 1024 * 1024)%Z -> mmode m = WholeFile) /\
               ((100 * 1024 * 1024 < fsize f)%Z -> mmode m = Streamed (4 * 1024 * 1024)))
            files members.
Proof.
  intros H. destruct (file_to_zip_ok _ _ _ _ _ _ _ H) as [_ [files [Hl ->]]].
  exists files, (map data_member files).
  split; [assumption |]. split; [apply members_of_packaged | apply data_member_modes].
Qed.

Lemma packager_streams_strictly_above_threshold_witness :
  exists w' members,
    file_to_zip Sample.env (Sample.config [] []) "/work/out" "out.zip"
                (Sample.world_with_dir [Sample.small_file; Sample.large_file])
    = (Ok "out.zip", w') /\
    members_of w' "out.zip" = members ++ [readme_member Sample.env (Sample.config [] [])] /\
    map mmode members = [WholeFile; Streamed 4194304].
Proof.
  evar (w' : World).
  assert (H : file_to_zip Sample.env (Sample.config [] []) "/work/out" "out.zip"
                (Sample.world_with_dir [Sample.small_file; Sample.large_file])
              = (Ok "out.zip", w'))
    by (subst w'; lazy; reflexivity).
  destruct (packager_streams_strictly_above_threshold _ _ _ _ _ _ _ H)
    as [files [members [Hl [Hm Hmodes]]]].
  exists w', members. split; [exact H |]. split; [exact Hm |].
  inversion Hl; subst files.
  inversion Hmodes as [| f1 m1 fs1 ms1 [_ [_ [H1 _]]] Hrest1]; subst.
  inversion Hrest1 as [| f2 m2 fs2 ms2 [_ [_ [_ H2]]] Hrest2]; subst.
  inversion Hrest2; subst. simpl.
  rewrite H1 by (simpl; lia). rewrite H2 by (simpl; lia). reflexivity.
Defined.

(** C4, as stated, fails: a file of exactly 100 * 1024 * 1024 bytes is
    added by the whole-file path, not streamed (and so is a file of
    100 * 1000 * 1000 bytes). *)
Lemma file_of_exactly_100_MB_is_not_streamed :
  exists w',
    file_to_zip Sample.env (Sample.config [] []) "/work/out" "out.zip"
                (Sample.world_with_dir [Sample.exact_file; Sample.large_file])
    = (Ok "out.zip", w') /\
    fsize Sample.exact_file = (100 * 1024 * 1024)%Z /\
    map (fun m => (mname m, mmode m)) (members_of w' "out.zip")
    = [("results_yes_maybe.geojson", WholeFile);
       ("results_yes_maybe.gpkg", Streamed 4194304);
       ("Readme.txt", FromString)] /\
    is_large (100 * 1024 * 1024) = false /\
    is_large (100 * 1000 * 1000) = false.
Proof.
  eexists. split; [lazy; reflexivity |]. repeat split.
Qed.

(** C8, as amended.  A packaging call that returns has written the whole
    archive and has then deleted the source directory.  When the archive
    has been written and the deletion fails, the exception of the
    deletion is raised by the packaging call: nothing is logged and the
    directory is still there. *)
Theorem packaging_deletes_directory_or_raises env config wd zp w :
  (forall r w',
     file_to_zip env config wd zp w = (Ok r, w') ->
     r = zp /\ lookup wd (dirs w') = None /\
     exists files,
       lookup wd (dirs w) = Some files /\
       members_of w' zp = map data_member files ++ [readme_member env config]) /\
  (forall w2 e,
     write_archive env config wd zp w = (Ok tt, w2) ->
     fault env (OpRmtree wd) = Some e ->
     file_to_zip env config wd zp w = (Raise e, w2) /\
     log w2 = log w /\ dirs w2 = dirs w).
Proof.
  split.
  - intros r w' H. destruct (file_to_zip_ok _ _ _ _ _ _ _ H) as [-> [files [Hl ->]]].
    split; [reflexivity |]. split.
    + unfold packaged. simpl. apply lookup_remove_key.
    + exists files. split; [assumption | apply members_of_packaged].
  - intros w2 e Hw He. rewrite file_to_zip_unfold, Hw, He.
    split; [reflexivity |].
    destruct (write_archive_ok _ _ _ _ _ _ Hw) as [files [_ ->]].
    unfold zip_append. simpl. now rewrite log_add_all, dirs_add_all.
Qed.

Lemma packaging_deletes_directory_or_raises_witness :
  (exists w',
     file_to_zip Sample.env (Sample.config [] []) "/work/out" "out.zip"
                 (Sample.world_with_dir [Sample.small_file])
     = (Ok "out.zip", w') /\ lookup "/work/out" (dirs w') = None) /\
  (exists w2,
     file_to_zip Sample.env_rmtree_fails (Sample.config [] []) "/work/out" "out.zip"
                 (Sample.world_with_dir [Sample.small_file])
     = (Raise Sample.busy, w2) /\ log w2 = []).
Proof.
  split.
  - evar (w' : World).
    assert (H : file_to_zip Sample.env (Sample.config [] []) "/work/out" "out.zip"
                  (Sample.world_with_dir [Sample.small_file])
                = (Ok "out.zip", w'))
      by (subst w'; lazy; reflexivity).
    destruct (packaging_deletes_directory_or_raises
                Sample.env (Sample.config [] []) "/work/out" "out.zip"
                (Sample.world_with_dir [Sample.small_file])) as [Hok _].
    destruct (Hok _ _ H) as [_ [Hgone _]].
    exists w'. split; [exact H | exact Hgone].
  - evar (w2 : World).
    assert (H : write_archive Sample.env_rmtree_fails (Sample.config [] [])
                  "/work/out" "out.zip" (Sample.world_with_dir [Sample.small_file])
                = (Ok tt, w2))
      by (subst w2; lazy; reflexivity).
    destruct (packaging_deletes_directory_or_raises
                Sample.env_rmtree_fails (Sample.config [] []) "/work/out" "out.zip"
                (Sample.world_with_dir [Sample.small_file])) as [_ Hfail].
    destruct (Hfail w2 Sample.busy H eq_refl) as [Hraise [Hlog _]].
    exists w2. split; [exact Hraise | exact Hlog].
Defined.

(** C8, as stated, fails: the deletion of the directory fails and the
    packaging call raises the exception of the deletion, having logged
    nothing. *)
Lemma deletion_failure_fails_packaging :
  exists w',
    file_to_zip Sample.env_rmtree_fails (Sample.config [] []) "/work/out" "out.zip"
                (Sample.world_with_dir [Sample.small_file])
    = (Raise Sample.busy, w') /\
    fault Sample.env_rmtree_fails (OpRmtree "/work/out") = Some Sample.busy /\
    log w' = [] /\
    lookup "/work/out" (dirs w') = Some [Sample.small_file] /\
    map mname (members_of w' "out.zip") = ["aois.geojson"; "Readme.txt"].
Proof.
  eexists. split; [lazy; reflexivity |]. repeat split.
Qed.

(** C9.  An archive the packager has written to the end of the [with]
    block, and so every archive of a packaging call that returns, holds
    the files of the directory, in order, then the manifest [Readme.txt]:
    the manifest is its last member and it has at least one member, also
    when the directory has no file.  When nothing fails and the directory
    exists the packaging call returns. *)
Theorem archive_ends_with_manifest env config wd zp w :
  (forall w2,
     write_archive env config wd zp w = (Ok tt, w2) ->
     exists files,
       lookup wd (dirs w) = Some files /\
       members_of w2 zp = map data_member files ++ [readme_member env config]) /\
  (forall r w',
     file_to_zip env config wd zp w = (Ok r, w') ->
     exists files,
       lookup wd (dirs w) = Some files /\
       members_of w' zp = map data_member files ++ [readme_member env config] /\
       In (readme_member env config) (members_of w' zp) /\
       mname (readme_member env config) = "Readme.txt" /\
       (1 <= length (members_of w' zp))%nat) /\
  (forall files,
     fault_free env -> lookup wd (dirs w) = Some files ->
     exists w', file_to_zip env config wd zp w = (Ok zp, w')).
Proof.
  split; [| split].
  - intros w2 H. destruct (write_archive_ok _ _ _ _ _ _ H) as [files [Hl ->]].
    exists files. split; [assumption |].
    rewrite members_of_zip_append, members_of_add_all.
    unfold members_of at 1. simpl. now rewrite lookup_store.
  - intros r w' H. destruct (file_to_zip_ok _ _ _ _ _ _ _ H) as [_ [files [Hl ->]]].
    exists files. rewrite members_of_packaged.
    repeat split; try assumption.
    + apply in_or_app. right. now left.
    + rewrite length_app. simpl. lia.
  - intros files Hfree Hl. eexists.
    exact (file_to_zip_total env config wd zp w files Hfree Hl).
Qed.

Lemma archive_ends_with_manifest_witness :
  exists w',
    file_to_zip Sample.env (Sample.config [] []) "/work/out" "out.zip"
                (Sample.world_with_dir [])
    = (Ok "out.zip", w') /\
    members_of w' "out.zip" = [readme_member Sample.env (Sample.config [] [])].
Proof.
  destruct (archive_ends_with_manifest Sample.env (Sample.config [] [])
              "/work/out" "out.zip" (Sample.world_with_dir [])) as [_ [Hok Htotal]].
  destruct (Htotal [] (fun _ => eq_refl) eq_refl) as [w' H].
  destruct (Hok _ _ H) as [files [Hl [Hm _]]].
  exists w'. split; [exact H |].
  inversion Hl; subst files. exact Hm.
Defined.

(* ================================================================== *)
(** ** Shapefile export (C5) *)
(* ================================================================== *)

Lemma geom_type_eqb_eq a b : geom_type_eqb a b = true <-> a = b.
Proof.
  split.
  - destruct a, b; intros H; try reflexivity; discriminate H.
  - intros ->. unfold geom_type_eqb. apply String.eqb_refl.
Qed.

Lemma seen_In t seen : existsb (geom_type_eqb t) seen = true <-> In t seen.
Proof.
  rewrite existsb_exists. split.
  - intros [x [Hx He]]. apply geom_type_eqb_eq in He. now subst.
  - intros H. exists t. split; [assumption | now apply geom_type_eqb_eq].
Qed.

Lemma In_unique_from l : forall seen t,
  In t (unique_from seen l) <-> In t l /\ ~ In t seen.
Proof.
  induction l as [| x l IH]; intros seen t; simpl.
  - tauto.
  - destruct (existsb (geom_type_eqb x) seen) eqn:E.
    + apply seen_In in E. rewrite IH. split.
      * intros [H1 H2]. auto.
      * intros [[<- | H1] H2]; [contradiction | auto].
    + assert (Hx : ~ In x seen) by (rewrite <- seen_In; congruence).
      simpl. rewrite IH. simpl. split.
      * intros [<- | [H1 H2]]; [auto | split; auto].
      * intros [[<- | H1] H2]; [now left |].
        destruct (geom_type_eqb x t) eqn:Ext.
        -- apply geom_type_eqb_eq in Ext. now left.
        -- right. split; [assumption |]. intros [-> | H]; [| contradiction].
           rewrite (proj2 (geom_type_eqb_eq t t) eq_refl) in Ext. discriminate.
Qed.

Lemma NoDup_unique_from l : forall seen, NoDup (unique_from seen l).
Proof.
  induction l as [| x l IH]; intros seen; simpl; [constructor |].
  destruct (existsb (geom_type_eqb x) seen); [apply IH |].
  constructor; [| apply IH].
  rewrite In_unique_from. intros [_ H]. apply H. now left.
Qed.

Lemma In_unique l t : In t (unique l) <-> In t l.
Proof. unfold unique. rewrite In_unique_from. simpl. tauto. Qed.

Lemma filter_disjoint_union {A} (p q : A -> bool) l :
  (forall x, p x = true -> q x = false) ->
  Permutation (filter p l ++ filter q l) (filter (fun x => p x || q x) l).
Proof.
  intros Hpq. induction l as [| x l IH]; simpl; [constructor |].
  destruct (p x) eqn:Hp; simpl.
  - rewrite (Hpq x Hp). now apply perm_skip.
  - destruct (q x); simpl; [| assumption].
    apply Permutation_sym. apply Permutation_cons_app. now apply Permutation_sym.
Qed.

Lemma filter_none {A} (l : list A) : filter (fun _ => false) l = [].
Proof. induction l; simpl; auto. Qed.

Lemma filter_all {A} (p : A -> bool) l :
  (forall x, In x l -> p x = true) -> filter p l = l.
Proof.
  induction l as [| x l IH]; intros H; simpl; [reflexivity |].
  rewrite (H x (or_introl eq_refl)). f_equal. apply IH. intros y Hy. apply H. now right.
Qed.

(** The rows selected for distinct types are, together, the rows whose
    type is one of them. *)
Lemma select_types_partition (rs : list feature) ts :
  NoDup ts ->
  Permutation
    (flat_map (fun t => filter (fun r => geom_type_eqb (type_of r) t) rs) ts)
    (filter (fun r => existsb (geom_type_eqb (type_of r)) ts) rs).
Proof.
  induction 1 as [| t ts Hnotin Hnd IH]; simpl.
  - now rewrite filter_none.
  - eapply Permutation_trans; [apply Permutation_app_head; exact IH |].
    apply filter_disjoint_union.
    intros r Hr. apply geom_type_eqb_eq in Hr. subst t.
    apply not_true_iff_false. rewrite seen_In. assumption.
Qed.

Lemma append_same_prefix p : forall a b, (p ++ a)%string = (p ++ b)%string -> a = b.
Proof.
  induction p as [| c p IH]; intros a b H; simpl in H; [assumption |].
  inversion H. now apply IH.
Qed.

Lemma shapefile_name_injective name t t' :
  shapefile_name name t = shapefile_name name t' -> t = t'.
Proof.
  unfold shapefile_name. intros H. apply append_same_prefix in H.
  destruct t, t'; try reflexivity; discriminate H.
Qed.

Lemma put_file_fresh f : forall files,
  ~ In (fname f) (map fname files) -> put_file f files = files ++ [f].
Proof.
  induction files as [| g files IH]; intros H; simpl; [reflexivity |].
  destruct (String.eqb (fname f) (fname g)) eqn:E.
  - apply String.eqb_eq in E. exfalso. apply H. left. now symmetry.
  - f_equal. apply IH. intros Hin. apply H. now right.
Qed.

Lemma files_of_stored w dir files :
  files_of (set_dirs (store dir files (dirs w)) w) dir = files.
Proof. unfold files_of. simpl. now rewrite lookup_store. Qed.

(** Files with fresh, distinct names are written one after the other. *)
Lemma write_parts env dir parts : forall w,
  fault_free env -> NoDup (map fst parts) ->
  (forall p, In p parts -> ~ In (fst p) (map fname (files_of w dir))) ->
  exists w',
    for_each parts (fun part => to_file env (snd part) dir (fst part) "ESRI Shapefile") w
    = (Ok tt, w') /\
    files_of w' dir = files_of w dir ++ map (part_file env) parts.
Proof.
  intros w Hfree. revert w.
  induction parts as [| p parts IH]; intros w Hnd Hfresh.
  - exists w. simpl. split; [reflexivity | now rewrite app_nil_r].
  - inversion Hnd as [| ? ? Hp Hnd']; subst.
    cbn [for_each]. unfold bind, to_file at 1, perform. rewrite Hfree.
    fold (part_file env p).
    rewrite put_file_fresh by (apply Hfresh; now left).
    match goal with
    | |- context [for_each parts _ ?w1] => destruct (IH w1 Hnd') as [w' [Hrun Hfiles]]
    end.
    + intros q Hq. rewrite files_of_stored, map_app, in_app_iff. simpl.
      intros [H | [H | []]].
      * apply (Hfresh q (or_intror Hq) H).
      * apply Hp. rewrite H. now apply in_map.
    + exists w'. split; [exact Hrun |].
      rewrite Hfiles, files_of_stored, <- app_assoc. reflexivity.
Qed.

(** C5.  The shapefile exporter hands to the writer one file per geometry
    type that occurs in the collection, named
    [{name}_{geometry_type}.shp], the names being distinct; each file holds
    the features of its type, at least one, and the files together hold
    the features of the collection, each once.  When nothing fails and the
    names are new in the directory, these files are the files the export
    adds to the directory. *)
Theorem shapefile_export_partitions gdf name :
  let parts := shapefile_parts gdf name in
  NoDup (map fst parts) /\
  (forall t, In (shapefile_name name t) (map fst parts) <->
             exists r, In r (rows gdf) /\ type_of r = t) /\
  (forall file part,
     In (file, part) parts ->
     exists t, file = shapefile_name name t /\ rows part <> [] /\
               columns part = columns gdf /\
               forall r, In r (rows part) <-> In r (rows gdf) /\ type_of r = t) /\
  Permutation (flat_map (fun p => rows (snd p)) parts) (rows gdf) /\
  (forall env dir_path w,
     fault_free env ->
     (forall t, ~ In (shapefile_name name t) (map fname (files_of w dir_path))) ->
     exists w',
       export_shapefile env gdf name dir_path w = (Ok tt, w') /\
       files_of w' dir_path = files_of w dir_path ++ map (part_file env) parts).
Proof.
  set (types := unique (map type_of (rows gdf))).
  assert (Htypes : forall t, In t types <-> exists r, In r (rows gdf) /\ type_of r = t).
  { intros t. unfold types. rewrite In_unique, in_map_iff. split.
    - intros [r [Ht Hr]]. exists r. auto.
    - intros [r [Hr Ht]]. exists r. auto. }
  assert (Hnd : NoDup types) by apply NoDup_unique_from.
  assert (Hnames : map fst (shapefile_parts gdf name) = map (shapefile_name name) types).
  { unfold shapefile_parts. fold types. rewrite map_map. reflexivity. }
  assert (Hnd_names : NoDup (map fst (shapefile_parts gdf name))).
  { rewrite Hnames. clear Htypes Hnames. induction Hnd as [| t ts Hnotin _ IH]; simpl.
    - constructor.
    - constructor; [| exact IH]. rewrite in_map_iff.
      intros [t' [He Hin]]. apply shapefile_name_injective in He. now subst. }
  cbv zeta. split; [exact Hnd_names |]. split; [| split; [| split]].
  - intros t. rewrite Hnames, in_map_iff, <- Htypes. split.
    + intros [t' [He Hin]]. apply shapefile_name_injective in He. now subst.
    + intros Hin. exists t. auto.
  - intros file part Hin. unfold shapefile_parts in Hin. fold types in Hin.
    apply in_map_iff in Hin. destruct Hin as [t [He Hin]]. inversion He; subst.
    exists t. split; [reflexivity |].
    assert (Hrows : forall r, In r (rows (select_type gdf t)) <->
                              In r (rows gdf) /\ type_of r = t).
    { intros r. unfold select_type. simpl. rewrite filter_In, geom_type_eqb_eq. tauto. }
    split; [| split; [reflexivity | exact Hrows]].
    apply Htypes in Hin. destruct Hin as [r Hr].
    apply Hrows in Hr. intros E. rewrite E in Hr. destruct Hr.
  - unfold shapefile_parts. fold types. rewrite flat_map_map_inputs. simpl.
    eapply Permutation_trans; [apply (select_types_partition (rows gdf) types Hnd) |].
    rewrite filter_all; [apply Permutation_refl |].
    intros r Hr. apply seen_In. apply Htypes. exists r. auto.
  - intros env dir_path w Hfree Hfresh. unfold export_shapefile.
    apply write_parts; [assumption | exact Hnd_names |].
    intros [file part] Hin. unfold shapefile_parts in Hin. fold types in Hin.
    apply in_map_iff in Hin. destruct Hin as [t [He _]]. inversion He; subst.
    simpl. apply Hfresh.
Qed.

Lemma shapefile_export_partitions_witness :
  exists w',
    export_shapefile Sample.env Sample.mixed "aois" "/work/out" (Sample.world_with_dir [])
    = (Ok tt, w') /\
    map fname (files_of w' "/work/out") = ["aois_Point.shp"; "aois_Polygon.shp"].
Proof.
  destruct (shapefile_export_partitions Sample.mixed "aois") as [_ [_ [_ [_ Hrun]]]].
  destruct (Hrun Sample.env "/work/out" (Sample.world_with_dir [])
                 (fun _ => eq_refl) (fun _ H => H)) as [w' [Hw Hfiles]].
  exists w'. split; [exact Hw |]. rewrite Hfiles. reflexivity.
Defined.

(* ================================================================== *)
(** ** Failure of an export (C3) *)
(* ================================================================== *)

Lemma for_each_app {A} (body : A -> M unit) l1 l2 w :
  for_each (l1 ++ l2) body w
  = match for_each l1 body w with
    | (Ok _, w1) => for_each l2 body w1
    | (Raise e, w1) => (Raise e, w1)
    end.
Proof.
  revert w. induction l1 as [| x l1 IH]; intros w; simpl; [reflexivity |].
  unfold bind. destruct (body x w) as [[[] | e] w1]; [apply IH | reflexivity].
Qed.

(** The turn of the loop for a format whose export raises: the error is
    logged and raised again. *)
Lemma export_format_guarded_fails env config y a fmt w e w1 :
  export_format env config y a fmt w = (Raise e, w1) ->
  export_format_guarded env config y a fmt w
  = (Raise e, logged ERROR (export_error_message fmt e) w1).
Proof.
  intros H. unfold export_format_guarded, try_except. rewrite H. reflexivity.
Qed.

(** C3, as amended.  When the export of a format raises, the formats
    before it having been exported, [create_and_upload_dataset] logs an
    error that names the format and raises the same exception again: the
    world is left as it was when the exception was raised, but for the
    logged error.  The formats that remain are not processed and the
    dataset is neither created nor updated in the registry. *)
Theorem export_failure_halts_the_run
        env config y a fmts1 fmt fmts2 w0 w1 w2 w3 e :
  FILE_FORMATS config = fmts1 ++ fmt :: fmts2 ->
  prepare_dataset env config w0 = (Ok tt, w1) ->
  for_each fmts1 (export_format_guarded env config y a) w1 = (Ok tt, w2) ->
  export_format env config y a fmt w2 = (Raise e, w3) ->
  create_and_upload_dataset env config y a w0
  = (Raise e, logged ERROR (export_error_message fmt e) w3).
Proof.
  intros Hfmts Hprep Hbefore Hfail.
  unfold create_and_upload_dataset. unfold bind at 1. rewrite Hprep.
  unfold bind at 1. rewrite Hfmts, for_each_app, Hbefore.
  cbn [for_each]. unfold bind at 1.
  now rewrite (export_format_guarded_fails _ _ _ _ _ _ _ _ Hfail).
Qed.

Lemma export_failure_halts_the_run_witness :
  exists w',
    create_and_upload_dataset Sample.env_write_fails
      (Sample.config [Sample.p2] ["gpkg"; "geojson"; "kml"])
      Sample.results_p2 Sample.aoi initial_world
    = (Raise Sample.disk_full, w') /\
    In (ERROR, export_error_message "geojson" Sample.disk_full) (log w').
Proof.
  evar (w1 : World). evar (w2 : World). evar (w3 : World).
  assert (H1 : prepare_dataset Sample.env_write_fails
                 (Sample.config [Sample.p2] ["gpkg"; "geojson"; "kml"]) initial_world
               = (Ok tt, w1))
    by (subst w1; lazy; reflexivity).
  assert (H2 : for_each ["gpkg"]
                 (export_format_guarded Sample.env_write_fails
                    (Sample.config [Sample.p2] ["gpkg"; "geojson"; "kml"])
                    Sample.results_p2 Sample.aoi) w1
               = (Ok tt, w2))
    by (subst w1 w2; lazy; reflexivity).
  assert (H3 : export_format Sample.env_write_fails
                 (Sample.config [Sample.p2] ["gpkg"; "geojson"; "kml"])
                 Sample.results_p2 Sample.aoi "geojson" w2
               = (Raise Sample.disk_full, w3))
    by (subst w2 w3; lazy; reflexivity).
  eexists. split.
  - exact (export_failure_halts_the_run Sample.env_write_fails
             (Sample.config [Sample.p2] ["gpkg"; "geojson"; "kml"])
             Sample.results_p2 Sample.aoi ["gpkg"] "geojson" ["kml"]
             initial_world w1 w2 w3 Sample.disk_full eq_refl H1 H2 H3).
  - simpl. now left.
Defined.

(** C3, as stated, fails: the writing of the GeoJSON files fails, the
    exception is raised out of [create_and_upload_dataset], and the format
    that remains, GeoPackage, has not been processed: it has no directory
    and no archive. *)
Lemma export_failure_skips_remaining_formats :
  exists w',
    create_and_upload_dataset Sample.env_write_fails
      (Sample.config [Sample.p2] ["geojson"; "gpkg"])
      Sample.results_p2 Sample.aoi initial_world
    = (Raise Sample.disk_full, w') /\
    fault Sample.env_write_fails
      (OpToFile "/work/mapswipe_results_geojson" "results_yes_maybe.geojson" "GeoJSON")
    = Some Sample.disk_full /\
    log w' = [(ERROR, "Error exporting to geojson: No space left on device")] /\
    map fst (dirs w') = ["/work/mapswipe_results_geojson"] /\
    archives w' = [] /\
    ~ In HCreateInHdx (hdx_calls w').
Proof.
  eexists. split; [lazy; reflexivity |].
  repeat split. simpl. intuition discriminate.
Qed.

(* ================================================================== *)
(** ** The links of the description (C10) *)
(* ================================================================== *)

Section Preservation.

Variable R : World -> World -> Prop.
Hypothesis R_refl : forall w, R w w.
Hypothesis R_trans : forall a b c, R a b -> R b c -> R a c.

Lemma preserves_ret {A} (a : A) : preserves R (ret a).
Proof. intros w r w' H. inversion H. apply R_refl. Qed.

Lemma preserves_raise {A} e : preserves R (@raise A e).
Proof. intros w r w' H. inversion H. apply R_refl. Qed.

Lemma preserves_lift {A} (x : Result A) : preserves R (lift x).
Proof. intros w r w' H. inversion H. apply R_refl. Qed.

Lemma preserves_bind {A B} (c : M A) (k : A -> M B) :
  preserves R c -> (forall a, preserves R (k a)) -> preserves R (bind c k).
Proof.
  intros Hc Hk w r w' H. unfold bind in H.
  destruct (c w) as [[a | e] w1] eqn:E.
  - eapply R_trans; [eapply Hc; exact E | eapply Hk; exact H].
  - inversion H; subst. eapply Hc. exact E.
Qed.

Lemma preserves_try_except {A} (c : M A) (h : exn -> M A) :
  preserves R c -> (forall e, preserves R (h e)) -> preserves R (try_except c h).
Proof.
  intros Hc Hh w r w' H. unfold try_except in H.
  destruct (c w) as [[a | e] w1] eqn:E.
  - inversion H; subst. eapply Hc. exact E.
  - eapply R_trans; [eapply Hc; exact E | eapply Hh; exact H].
Qed.

Lemma preserves_for_each {A} (body : A -> M unit) l :
  (forall x, preserves R (body x)) -> preserves R (for_each l body).
Proof.
  intros Hb. induction l as [| x l IH]; simpl.
  - apply preserves_ret.
  - apply preserves_bind; [apply Hb | intros _; exact IH].
Qed.

Lemma preserves_perform env o effect :
  (forall w, R w (effect w)) -> preserves R (perform env o effect).
Proof.
  intros He w r w' H. unfold perform in H.
  destruct (fault env o); inversion H; subst; [apply R_refl | apply He].
Qed.

End Preservation.

Lemma calls_from_same config w w' :
hdx_calls w' = hdx_calls w -> calls_from config w w'.
Proof. intros H. exists []. rewrite app_nil_r. split; [assumption | constructor]. Qed.

Lemma calls_from_refl config w : calls_from config w w.
Proof. now apply calls_from_same. Qed.

Lemma calls_from_trans config a b c :
calls_from config a b -> calls_from config b c -> calls_from config a c.
Proof.
intros [l1 [H1 F1]] [l2 [H2 F2]]. exists (l1 ++ l2). split.
- now rewrite H2, H1, app_assoc.
- apply Forall_app. now split.
Qed.

Create HintDb keep.

Section Calls.

Variable config : Config.
Variable env : Env.

Lemma keeps_ret {A} (a : A) : keeps config (ret a).
Proof. apply preserves_ret, calls_from_refl. Qed.

Lemma keeps_raise {A} e : keeps config (@raise A e).
Proof. apply preserves_raise, calls_from_refl. Qed.

Lemma keeps_lift {A} (x : Result A) : keeps config (lift x).
Proof. apply preserves_lift, calls_from_refl. Qed.

Lemma keeps_bind {A B} (c : M A) (k : A -> M B) :
  keeps config c -> (forall a, keeps config (k a)) -> keeps config (bind c k).
Proof. apply preserves_bind, calls_from_trans. Qed.

Lemma keeps_try_except {A} (c : M A) (h : exn -> M A) :
  keeps config c -> (forall e, keeps config (h e)) -> keeps config (try_except c h).
Proof. apply preserves_try_except, calls_from_trans. Qed.

Lemma keeps_for_each {A} (body : A -> M unit) l :
  (forall x, keeps config (body x)) -> keeps config (for_each l body).
Proof. apply preserves_for_each; [apply calls_from_refl | apply calls_from_trans]. Qed.

(** An operation that does not touch the registry calls. *)
Lemma keeps_perform o effect :
  (forall w, hdx_calls (effect w) = hdx_calls w) -> keeps config (perform env o effect).
Proof.
  intros H. apply preserves_perform; [apply calls_from_refl |].
  intros w. now apply calls_from_same.
Qed.

Lemma keeps_logger lv msg : keeps config (logger_call lv msg).
Proof. intros w r w' H. inversion H. now apply calls_from_same. Qed.

Lemma keeps_hdx c : settings_call config c -> keeps config (hdx env c).
Proof.
  intros Hc. apply preserves_perform; [apply calls_from_refl |].
  intros w. exists [c]. split; [reflexivity | now constructor].
Qed.

#[local] Hint Resolve keeps_ret keeps_raise keeps_lift keeps_logger : keep.
#[local] Hint Extern 1 (keeps _ (bind _ _)) => apply keeps_bind; [| intros ?] : keep.
#[local] Hint Extern 1 (keeps _ (try_except _ _)) => apply keeps_try_except; [| intros ?] : keep.
#[local] Hint Extern 1 (keeps _ (for_each _ _)) => apply keeps_for_each; intros ? : keep.
#[local] Hint Extern 1 (keeps _ (perform _ _ _)) => apply keeps_perform; intros ? : keep.

Lemma keeps_retrieve url : keeps config (retrieve env url).
Proof.
  unfold retrieve. apply keeps_bind.
  - intros w r w' H. inversion H. now apply calls_from_same.
  - intros response. apply keeps_bind; [| intros _; apply keeps_lift].
    unfold check_status. destruct (raise_for_status env response); auto with keep.
Qed.

Lemma keeps_fetch_project_data id : keeps config (fetch_project_data env id).
Proof.
  unfold fetch_project_data, logger_error.
  auto 10 using keeps_retrieve with keep.
Qed.

Lemma keeps_extract_project_id raw : keeps config (extract_project_id raw).
Proof.
  unfold extract_project_id, logger_warning. destruct raw as [s | r]; auto with keep.
  destruct (Py.startswith s "http"); auto with keep.
  destruct (Re.search s); auto with keep.
Qed.

Lemma keeps_aggregate_step acc project : keeps config (aggregate_step env acc project).
Proof.
  unfold aggregate_step, getitem_project_id, logger_info. destruct acc as [cy ca].
  apply keeps_bind; [destruct (project_id project); auto with keep |].
  intros raw. apply keeps_bind; [apply keeps_extract_project_id |].
  intros id. apply keeps_bind; [apply keeps_logger |].
  intros _. apply keeps_bind; [apply keeps_fetch_project_data |].
  intros [[y |] [a |]]; apply keeps_ret.
Qed.

Lemma keeps_aggregate_loop projects : forall acc, keeps config (aggregate_loop env projects acc).
Proof.
  induction projects as [| project rest IH]; intros acc; simpl.
  - apply keeps_ret.
  - apply keeps_bind; [apply keeps_aggregate_step | intros acc'; apply IH].
Qed.

Lemma keeps_to_file gdf dir_path file_name driver :
  keeps config (to_file env gdf dir_path file_name driver).
Proof. unfold to_file. auto with keep. Qed.

Lemma keeps_export_shapefile gdf name dir_path :
  keeps config (export_shapefile env gdf name dir_path).
Proof. unfold export_shapefile. auto using keeps_to_file with keep. Qed.

Lemma keeps_add_file wd zp f : keeps config (add_file env wd zp f).
Proof.
  unfold add_file, getsize. apply keeps_bind; [auto 10 with keep |].
  intros size. destruct (is_large size); auto 10 with keep.
Qed.

Lemma keeps_file_to_zip wd zp : keeps config (file_to_zip env config wd zp).
Proof.
  unfold file_to_zip, zip_create, fill_archive, rmtree.
  apply keeps_bind; [auto with keep | intros _].
  apply keeps_bind; [| intros _; auto 10 with keep].
  apply keeps_bind.
  - intros w r w' H. unfold iterdir in H.
    destruct (fault env (OpIterdir wd)); [| destruct (lookup wd (dirs w))];
      inversion H; apply calls_from_refl.
  - intros files. auto 10 using keeps_add_file with keep.
Qed.

Lemma keeps_export_format y a fmt : keeps config (export_format env config y a fmt).
Proof.
  unfold export_format, makedirs.
  apply keeps_bind.
  - apply keeps_perform. intros w. now destruct (lookup _ (dirs w)).
  - intros _. apply keeps_bind.
    + destruct (String.eqb fmt "shp");
        auto 10 using keeps_export_shapefile, keeps_to_file with keep.
    + intros _. apply keeps_bind; [apply keeps_file_to_zip |].
      intros zip_path. now apply keeps_hdx.
Qed.

Lemma keeps_create_and_upload_dataset y a :
  keeps config (create_and_upload_dataset env config y a).
Proof.
  unfold create_and_upload_dataset, prepare_dataset, export_format_guarded, logger_error.
  repeat (apply keeps_bind; [| intros ?]);
    try (apply keeps_hdx; exact I); try apply keeps_ret.
  - apply keeps_hdx. reflexivity.
  - apply keeps_for_each. intros t. now apply keeps_hdx.
  - apply keeps_for_each. intros fmt.
    apply keeps_try_except; [apply keeps_export_format |].
    intros e. auto with keep.
Qed.

Lemma keeps_main : keeps config (main env config).
Proof.
  unfold main, aggregate_project_data.
  apply keeps_bind; [apply keeps_aggregate_loop |].
  intros [y a]. destruct (negb (empty y) && negb (empty a)).
  - apply keeps_bind; [apply keeps_create_and_upload_dataset | intros _; apply keeps_ret].
  - apply keeps_logger.
Qed.

End Calls.

Lemma string_append_assoc a : forall b c, ((a ++ b) ++ c)%string = (a ++ b ++ c)%string.
Proof. induction a as [| x a IH]; intros b c; simpl; [reflexivity | now rewrite IH]. Qed.

(** C10.  The link list has one link per project of the settings, in the
    order of the settings, each computed from the project's entry alone;
    when there is a project the description ends with the heading and the
    links joined by newlines.  In every run, whatever the data service
    answers and whichever fetches fail, a dataset handed to the registry
    carries the description built from the settings. *)
Theorem description_links_follow_settings config :
  length (project_links config) = length (PROJECTS config) /\
  (forall i project,
     nth_error (PROJECTS config) i = Some project ->
     nth_error (project_links config) i = Some (project_link project)) /\
  (forall base,
     PROJECTS config <> [] ->
     exists head,
       attach_project_links_to_description config base
       = (head ++ " Source MapSwipe Projects" ++ Py.nl ++ Py.nl
               ++ Py.join Py.nl (project_links config))%string) /\
  (forall env w r w', main env config w = (r, w') -> calls_from config w w') /\
  (forall env y a w r w',
     create_and_upload_dataset env config y a w = (r, w') -> calls_from config w w').
Proof.
  split; [| split; [| split; [| split]]].
  - unfold project_links. apply length_map.
  - intros i project H. unfold project_links. rewrite nth_error_map, H. reflexivity.
  - intros base Hne. unfold attach_project_links_to_description.
    destruct (project_links config) as [| link links] eqn:E.
    + unfold project_links in E. apply map_eq_nil in E. contradiction.
    + eexists. rewrite string_append_assoc. reflexivity.
  - intros env w r w'. apply keeps_main.
  - intros env y a w r w'. apply keeps_create_and_upload_dataset.
Qed.

Lemma description_links_follow_settings_witness :
  exists w',
    main Sample.env (Sample.config [Sample.gone; Sample.p2] ["geojson"]) initial_world
    = (Ok tt, w') /\
    calls_from (Sample.config [Sample.gone; Sample.p2] ["geojson"]) initial_world w' /\
    nth_error (project_links (Sample.config [Sample.gone; Sample.p2] ["geojson"])) 0
    = Some "- [Gone](https://mapswipe.org/en/projects/gone/)" /\
    In (ERROR, fetch_error_message (Py.PStr "gone") Sample.http_error) (log w') /\
    In (dataset_call (Sample.config [Sample.gone; Sample.p2] ["geojson"])) (hdx_calls w').
Proof.
  destruct (description_links_follow_settings
              (Sample.config [Sample.gone; Sample.p2] ["geojson"]))
    as [_ [Hnth [_ [Hmain _]]]].
  evar (w' : World).
  assert (H : main Sample.env (Sample.config [Sample.gone; Sample.p2] ["geojson"])
                initial_world = (Ok tt, w'))
    by (subst w'; lazy; reflexivity).
  exists w'. split; [exact H |]. split; [exact (Hmain _ _ _ _ H) |].
  split; [exact (Hnth 0%nat Sample.gone eq_refl) |].
  split; simpl; auto.
Defined.

(* ================================================================== *)
(** * Further properties *)
(* ================================================================== *)

(** ** Config *)

Lemma truthy_usable v : truthy v = true <-> usable v.
Proof.
  unfold usable. split.
  - destruct v as [[| c s] |]; simpl; intros H; try discriminate. now exists c, s.
  - intros [c [s ->]]. reflexivity.
Qed.

Lemma Config_init_without_credentials loader input raw w :
  load_config loader input = Ok raw ->
  logging_basic_config loader (get_or (raw_log_level raw) "INFO")
                       (get_or (raw_log_format raw) default_log_format) = None ->
  ~ (usable (os_getenv loader "HDX_API_KEY" (raw_hdx_api_key raw)) /\
     usable (os_getenv loader "HDX_OWNER_ORG" (raw_hdx_owner_org raw)) /\
     usable (os_getenv loader "HDX_MAINTAINER" (raw_hdx_maintainer raw))) ->
  Config_init loader input w = (Raise credentials_error, w).
Proof.
  intros Hload Hlog Hno. unfold Config_init, bind at 1, lift at 1. rewrite Hload.
  cbv zeta. rewrite Hlog.
  destruct (os_getenv loader "HDX_API_KEY" (raw_hdx_api_key raw)) as [key |] eqn:Ek;
    [| reflexivity].
  destruct (os_getenv loader "HDX_OWNER_ORG" (raw_hdx_owner_org raw)) as [org |] eqn:Eo;
    [| reflexivity].
  destruct (os_getenv loader "HDX_MAINTAINER" (raw_hdx_maintainer raw)) as [m |] eqn:Em;
    [| reflexivity].
  destruct (truthy (Some key) && truthy (Some org) && truthy (Some m)) eqn:Et;
    [| reflexivity].
  exfalso. apply Hno.
  apply andb_true_iff in Et. destruct Et as [Et Hm].
  apply andb_true_iff in Et. destruct Et as [Hk Ho].
  rewrite <- !truthy_usable. auto.
Qed.

(** X1.  When the logger can be configured and the API key, the owner
    organisation or the maintainer is missing or empty, the environment
    being looked at first, the constructor of [Config] raises the
    [ValueError] about credentials:
    nothing is logged and what [Configuration.create] would answer does
    not matter. *)
Theorem config_requires_credentials loader input raw w :
  load_config loader input = Ok raw ->
  logging_basic_config loader (get_or (raw_log_level raw) "INFO")
                       (get_or (raw_log_format raw) default_log_format) = None ->
  ~ (usable (os_getenv loader "HDX_API_KEY" (raw_hdx_api_key raw)) /\
     usable (os_getenv loader "HDX_OWNER_ORG" (raw_hdx_owner_org raw)) /\
     usable (os_getenv loader "HDX_MAINTAINER" (raw_hdx_maintainer raw))) ->
  Config_init loader input w = (Raise credentials_error, w).
Proof. apply Config_init_without_credentials. Qed.

Lemma config_requires_credentials_witness :
  Config_init Demo.loader_empty_key (FromStr "config.yaml") initial_world
  = (Raise credentials_error, initial_world) /\
  Config_init (Demo.loader_with (fun _ => None) Demo.raw_no_maintainer)
              (FromDict Demo.raw_no_maintainer) initial_world
  = (Raise credentials_error, initial_world).
Proof.
  split.
  - apply (config_requires_credentials Demo.loader_empty_key (FromStr "config.yaml") Demo.raw).
    + reflexivity.
    + reflexivity.
    + intros [[c [s H]] _]. discriminate H.
  - apply (config_requires_credentials _ (FromDict Demo.raw_no_maintainer)
                                       Demo.raw_no_maintainer).
    + reflexivity.
    + reflexivity.
    + intros [_ [_ [c [s H]]]]. discriminate H.
Defined.

(** X2.  A [Config] that has been constructed holds credentials that are
    not empty; each of them, and the site, is the variable of the
    environment when it is set and the entry of the settings otherwise
    (the site defaulting to ["demo"]).  The other attributes come from
    the settings, the logger has accepted its level and format,
    [Configuration.create] has answered for that site and key, and its
    answer has been logged. *)
Theorem config_prefers_environment loader input w c w' :
  Config_init loader input w = (Ok c, w') ->
  exists raw,
    load_config loader input = Ok raw /\
    logging_basic_config loader (LOG_LEVEL c) (LOG_FORMAT c) = None /\
    LOG_LEVEL c = get_or (raw_log_level raw) "INFO" /\
    os_getenv loader "HDX_API_KEY" (raw_hdx_api_key raw) = Some (HDX_API_KEY c) /\
    os_getenv loader "HDX_OWNER_ORG" (raw_hdx_owner_org raw)
    = Some (HDX_OWNER_ORG (settings c)) /\
    os_getenv loader "HDX_MAINTAINER" (raw_hdx_maintainer raw)
    = Some (HDX_MAINTAINER (settings c)) /\
    HDX_SITE c = get_or (getenv loader "HDX_SITE") (get_or (raw_hdx_site raw) "demo") /\
    HDX_API_KEY c <> "" /\ HDX_OWNER_ORG (settings c) <> "" /\
    HDX_MAINTAINER (settings c) <> "" /\
    settings c = settings_of raw (HDX_OWNER_ORG (settings c)) (HDX_MAINTAINER (settings c)) /\
    configuration_create loader (HDX_SITE c) (HDX_API_KEY c) = Ok (HDX_URL_PREFIX c) /\
    w' = logged INFO ("Using HDX site: " ++ HDX_URL_PREFIX c) w.
Proof.
  unfold Config_init, bind at 1, lift at 1. intros H.
  destruct (load_config loader input) as [raw | e]; [| discriminate H].
  exists raw. split; [reflexivity |]. cbv zeta in H.
  destruct (logging_basic_config loader (get_or (raw_log_level raw) "INFO")
              (get_or (raw_log_format raw) default_log_format)) eqn:Hlog;
    [discriminate H |].
  destruct (os_getenv loader "HDX_API_KEY" (raw_hdx_api_key raw)) as [key |];
    [| discriminate H].
  destruct (os_getenv loader "HDX_OWNER_ORG" (raw_hdx_owner_org raw)) as [org |];
    [| discriminate H].
  destruct (os_getenv loader "HDX_MAINTAINER" (raw_hdx_maintainer raw)) as [m |];
    [| discriminate H].
  destruct (truthy (Some key) && truthy (Some org) && truthy (Some m)) eqn:Et;
    [| discriminate H].
  apply andb_true_iff in Et. destruct Et as [Et Hm].
  apply andb_true_iff in Et. destruct Et as [Hk Ho].
  unfold bind, lift, logger_info, logger_call, ret in H.
  assert (Hsite : get_or (os_getenv loader "HDX_SITE" None) (get_or (raw_hdx_site raw) "demo")
                  = get_or (getenv loader "HDX_SITE") (get_or (raw_hdx_site raw) "demo")).
  { unfold os_getenv. now destruct (getenv loader "HDX_SITE"). }
  rewrite Hsite in H.
  destruct (configuration_create loader _ key) as [url | e] eqn:Hc; [| discriminate H].
  inversion H; subst; simpl.
  repeat split; try assumption;
    match goal with
    | |- ?x <> "" => destruct x; [discriminate | discriminate]
    end.
Qed.

Lemma config_prefers_environment_witness :
  exists c w',
    Config_init Demo.loader (FromStr "config.yaml") initial_world = (Ok c, w') /\
    HDX_SITE c = "demo" /\ HDX_API_KEY c = "secret" /\
    DATASET_PREFIX (settings c) = "mapswipe_results_myanmar".
Proof.
  evar (c : Loaded). evar (w' : World).
  assert (H : Config_init Demo.loader (FromStr "config.yaml") initial_world = (Ok c, w'))
    by (subst c w'; lazy; reflexivity).
  destruct (config_prefers_environment _ _ _ _ _ H)
    as [raw [Hraw [_ [_ [Hkey [_ [_ [Hsite _]]]]]]]].
  exists c, w'. split; [exact H |].
  inversion Hraw; subst raw.
  split; [exact Hsite |]. split; [| reflexivity].
  inversion Hkey. reflexivity.
Defined.

(** ** Names: letter case and spaces *)

Lemma lower_ascii_tidy c :
  tidy_char (if Ascii.eqb (Py.lower_ascii c) " " then "_"%char else Py.lower_ascii c) = true.
Proof. destruct c as [[] [] [] [] [] [] [] []]; reflexivity. Qed.











Lemma sanitized_tidy s : all_chars tidy_char (Py.replace_char " " "_" (Py.lower s)) = true.
Proof.
  induction s as [| c s IH]; simpl; [reflexivity |].
  now rewrite lower_ascii_tidy, IH.
Qed.


(** X4.  When the settings give no prefix, the prefix is the dataset name
    in lower case with underscores for spaces, so it has no space and no
    upper-case letter; a prefix the settings give is kept as it is. *)
Theorem prefix_defaults_to_sanitized_name raw owner_org maintainer :
  (raw_dataset_prefix raw = None ->
   DATASET_PREFIX (settings_of raw owner_org maintainer)
   = Py.replace_char " " "_"
       (Py.lower (DATASET_NAME (settings_of raw owner_org maintainer))) /\
   all_chars tidy_char (DATASET_PREFIX (settings_of raw owner_org maintainer)) = true) /\
  (forall prefix,
     raw_dataset_prefix raw = Some prefix ->
     DATASET_PREFIX (settings_of raw owner_org maintainer) = prefix).
Proof.
  split.
  - intros H. unfold settings_of. simpl. rewrite H. simpl.
    split; [reflexivity | apply sanitized_tidy].
  - intros prefix H. unfold settings_of. simpl. now rewrite H.
Qed.

Lemma prefix_defaults_to_sanitized_name_witness :
  DATASET_PREFIX (settings_of Demo.raw "org" "me") = "mapswipe_results_myanmar" /\
  all_chars tidy_char (DATASET_PREFIX (settings_of Demo.raw "org" "me")) = true.
Proof.
  destruct (prefix_defaults_to_sanitized_name Demo.raw "org" "me") as [Hdefault _].
  destruct (Hdefault eq_refl) as [Hp Ht].
  split; [rewrite Hp; reflexivity | exact Ht].
Defined.


(** ** The resolver: the token is unique *)

Lemma all_chars_append p a b :
  all_chars p (a ++ b) = all_chars p a && all_chars p b.
Proof.
  induction a as [| c a IH]; simpl; [reflexivity |].
  now rewrite IH, andb_assoc.
Qed.

Lemma token_char_not_slash c : Re.is_token_char c = true -> Ascii.eqb c "/" = false.
Proof.
  intros H. destruct (Ascii.eqb c "/") eqn:E; [| reflexivity].
  apply Ascii.eqb_eq in E. subst. discriminate H.
Qed.

Lemma after_token_slash_token t : forall tail,
  all_chars Re.is_token_char t = true -> token_tail tail ->
  after_token_slash (t ++ tail) = None.
Proof.
  induction t as [| c t IH]; intros tail Hall Htail.
  - destruct Htail as [-> | [-> | [-> | ->]]]; reflexivity.
  - simpl in Hall. apply andb_true_iff in Hall. destruct Hall as [Hc Hall].
    cbn [append after_token_slash]. rewrite (IH tail Hall Htail).
    rewrite (token_char_not_slash c Hc). simpl. now destruct (t ++ tail)%string.
Qed.

Lemma after_token_slash_found x : forall c r,
  Re.is_token_char c = true -> after_token_slash (String c r) = None ->
  after_token_slash (x ++ "/" ++ String c r) = Some (String c r).
Proof.
  induction x as [| a x IH]; intros c r Hc Hnone.
  - change ("" ++ "/" ++ String c r)%string with (String "/" (String c r)).
    cbn [after_token_slash] in *. rewrite Hnone. now rewrite Hc.
  - change (String a x ++ "/" ++ String c r)%string
      with (String a (x ++ "/" ++ String c r))%string.
    cbn [after_token_slash]. now rewrite (IH c r Hc Hnone).
Qed.

Lemma trailing_token_suffix s token :
  trailing_token s token ->
  exists tail, token_tail tail /\ after_token_slash s = Some (token ++ tail)%string.
Proof.
  intros [before [tail [-> [Hne [Hall Htail]]]]]. exists tail. split; [assumption |].
  destruct token as [| c token]; [congruence |].
  replace (before ++ "projects/" ++ String c token ++ tail)%string
    with ((before ++ "projects") ++ "/" ++ String c (token ++ tail))%string
    by (rewrite string_append_assoc; reflexivity).
  apply after_token_slash_found.
  - simpl in Hall. now apply andb_true_iff in Hall.
  - apply (after_token_slash_token (String c token) tail Hall Htail).
Qed.

Lemma trailing_token_unique s t1 t2 :
  trailing_token s t1 -> trailing_token s t2 -> t1 = t2.
Proof.
  intros H1 H2.
  destruct (trailing_token_suffix _ _ H1) as [tail1 [Ht1 E1]].
  destruct (trailing_token_suffix _ _ H2) as [tail2 [Ht2 E2]].
  rewrite E1 in E2. inversion E2 as [E].
  destruct H1 as [_ [_ [_ [_ [Hall1 _]]]]]. destruct H2 as [_ [_ [_ [_ [Hall2 _]]]]].
  pose proof (span_complete _ _ _ Hall1 (proj2 (token_tail_complete _ Ht1))) as S1.
  pose proof (span_complete _ _ _ Hall2 (proj2 (token_tail_complete _ Ht2))) as S2.
  rewrite E in S1. rewrite S1 in S2. now inversion S2.
Qed.

(** X6.  A reference has at most one trailing segment [projects/<token>];
    when it has one, the search of the pattern returns that token, and so
    does the resolver for a reference that begins with [http], without
    logging. *)
Theorem resolver_returns_the_trailing_token s token :
  trailing_token s token ->
  (forall token', trailing_token s token' -> token' = token) /\
  Re.search s = Some token /\
  (Py.startswith s "http" = true ->
   forall w, extract_project_id (Py.PStr s) w = (Ok (Py.PStr token), w)).
Proof.
  intros H.
  assert (Hs : Re.search s = Some token).
  { destruct (Re.search s) as [t |] eqn:E.
    - f_equal. apply (trailing_token_unique s); [now apply search_sound | assumption].
    - exfalso. now apply (search_complete s token H). }
  split; [| split].
  - intros token' H'. now apply (trailing_token_unique s).
  - exact Hs.
  - intros Hhttp w. simpl. now rewrite Hhttp, Hs.
Qed.

Lemma resolver_returns_the_trailing_token_witness :
  Re.search ("https://mapswipe.org/projects/old/projects/-NFNr55R_LYJvxP7wmte/" ++ Py.nl)
  = Some "-NFNr55R_LYJvxP7wmte".
Proof.
  apply (resolver_returns_the_trailing_token
           ("https://mapswipe.org/projects/old/projects/-NFNr55R_LYJvxP7wmte/" ++ Py.nl)
           "-NFNr55R_LYJvxP7wmte").
  exists "https://mapswipe.org/projects/old/", ("/" ++ Py.nl)%string.
  split; [reflexivity |]. split; [discriminate |]. split; [reflexivity |].
  right. right. right. reflexivity.
Defined.

Lemma search_token_none token :
  all_chars Re.is_token_char token = true -> Re.search token = None.
Proof.
  intros Hall. destruct (Re.search token) as [t |] eqn:E; [| reflexivity].
  apply search_sound in E. destruct E as [before [tail [Hs _]]].
  rewrite Hs in Hall. rewrite !all_chars_append in Hall.
  apply andb_true_iff in Hall. destruct Hall as [_ Hall].
  apply andb_true_iff in Hall. destruct Hall as [Hall _]. discriminate Hall.
Qed.

(** X7.  An identifier the resolver has returned resolves to itself: the
    resolver applied a second time returns the same identifier. *)
Theorem resolver_is_idempotent raw w id w1 :
  extract_project_id raw w = (Ok id, w1) ->
  forall w2, exists w3, extract_project_id id w2 = (Ok id, w3).
Proof.
  intros H w2.
  destruct raw as [s | r]; simpl in H.
  - destruct (Py.startswith s "http") eqn:Hhttp.
    + destruct (Re.search s) as [token |] eqn:Hs.
      * inversion H; subst.
        apply search_sound in Hs. destruct Hs as [_ [_ [_ [_ [Hall _]]]]].
        simpl. rewrite (search_token_none _ Hall).
        destruct (Py.startswith token "http"); eexists; reflexivity.
      * unfold bind, logger_warning, logger_call, ret in H. inversion H; subst.
        simpl. rewrite Hhttp, Hs. eexists. reflexivity.
    + inversion H; subst. simpl. rewrite Hhttp. eexists. reflexivity.
  - inversion H; subst. eexists. reflexivity.
Qed.

Lemma resolver_is_idempotent_witness :
  exists w3,
    extract_project_id (Py.PStr "http-archive") initial_world
    = (Ok (Py.PStr "http-archive"), w3).
Proof.
  apply (resolver_is_idempotent
           (Py.PStr "https://mapswipe.org/en/projects/http-archive/")
           initial_world (Py.PStr "http-archive") initial_world).
  reflexivity.
Defined.

(** ** The fetcher and the aggregation loop: effects *)

(** X8.  [fetch_project_data] returns both collections or neither.  With
    both, the two addresses have been requested in order and nothing is
    logged; with neither, a retrieval has failed, its error is logged and
    the first address, or the first and the second, have been requested. *)
Theorem fetch_returns_both_or_neither env id w pair w' :
  fetch_project_data env id w = (Ok pair, w') ->
  (exists y a,
     pair = (Some y, Some a) /\
     retrieval_gives env (requests_made w) (yes_maybe_url id) y /\
     retrieval_gives env (requests_made w ++ [yes_maybe_url id]) (aoi_url id) a /\
     w' = requested [yes_maybe_url id; aoi_url id] w) \/
  (exists e reqs,
     pair = (None, None) /\
     fetch_fails env (requests_made w) id e /\
     (reqs = [yes_maybe_url id] \/ reqs = [yes_maybe_url id; aoi_url id]) /\
     w' = logged ERROR (fetch_error_message id e) (requested reqs w)).
Proof.
  intros H.
  destruct (fetch_project_data_cases env id w)
    as [[y [a [Hy [Ha H']]]] | [e [reqs0 [Hfail _]]]].
  - rewrite H' in H. inversion H; subst. left. exists y, a. auto.
  - destruct (fetch_project_data_fails env id w e Hfail) as [reqs [Hshape H']].
    rewrite H' in H. inversion H; subst. right. exists e, reqs. auto.
Qed.

Lemma fetch_returns_both_or_neither_witness :
  exists y a,
    fetch_project_data Sample.env (Py.PStr "p2") initial_world
    = (Ok (Some y, Some a),
       requested [yes_maybe_url (Py.PStr "p2"); aoi_url (Py.PStr "p2")] initial_world).
Proof.
  evar (pair : (option GeoDataFrame * option GeoDataFrame)%type). evar (w' : World).
  assert (H : fetch_project_data Sample.env (Py.PStr "p2") initial_world = (Ok pair, w'))
    by (subst pair w'; lazy; reflexivity).
  destruct (fetch_returns_both_or_neither _ _ _ _ _ H)
    as [[y [a [Hp [_ [_ Hw]]]]] | [e [reqs [Hp _]]]].
  - exists y, a. rewrite H. subst pair. rewrite Hp, Hw. reflexivity.
  - subst pair. discriminate Hp.
Defined.

Lemma requests_and_log_only_refl w : requests_and_log_only 0 w w.
Proof.
  repeat split; [exists [] | exists []]; rewrite app_nil_r; auto.
Qed.

Lemma requests_and_log_only_trans n m a b c :
  requests_and_log_only n a b -> requests_and_log_only m b c ->
  requests_and_log_only (n + m) a c.
Proof.
  intros (Hd1 & Ha1 & Hh1 & (r1 & Hr1 & Hl1 & Hs1) & (e1 & He1))
         (Hd2 & Ha2 & Hh2 & (r2 & Hr2 & Hl2 & Hs2) & (e2 & He2)).
  repeat split; try congruence.
  - exists (r1 ++ r2). rewrite Hr2, Hr1, app_assoc. split; [reflexivity |].
    split; [rewrite length_app; lia | now apply Forall_app].
  - exists (e1 ++ e2). now rewrite He2, He1, app_assoc.
Qed.

Lemma requests_and_log_only_weaken n m a b :
  n <= m -> requests_and_log_only n a b -> requests_and_log_only m a b.
Proof.
  intros Hle (Hd & Ha & Hh & (r & Hr & Hl & Hs) & He).
  repeat split; try assumption. exists r. repeat split; try assumption. lia.
Qed.

Lemma logged_only lv msg w : requests_and_log_only 0 w (logged lv msg w).
Proof.
  repeat split; [exists [] | exists [(lv, msg)]]; simpl; rewrite ?app_nil_r; auto.
Qed.

Lemma requested_only reqs w :
  Forall service_address reqs ->
  requests_and_log_only (length reqs) w (requested reqs w).
Proof.
  intros H. repeat split; [exists reqs | exists []]; simpl; rewrite ?app_nil_r; auto.
Qed.

Lemma extract_project_id_only raw w r w' :
  extract_project_id raw w = (r, w') -> requests_and_log_only 0 w w'.
Proof.
  intros H. destruct (extract_project_id_cases raw w) as [id [H' | [_ [s [_ H']]]]];
    rewrite H' in H; inversion H; subst; [apply requests_and_log_only_refl | apply logged_only].
Qed.

Lemma fetch_project_data_only env id w r w' :
  fetch_project_data env id w = (r, w') -> requests_and_log_only 2 w w'.
Proof.
  intros H.
  assert (Hy : service_address (yes_maybe_url id)) by (exists id; now left).
  assert (Ha : service_address (aoi_url id)) by (exists id; now right).
  destruct (fetch_project_data_cases env id w)
    as [[y [a [_ [_ H']]]] | [e [reqs0 [Hfail _]]]].
  - rewrite H' in H. inversion H; subst.
    apply (requested_only [yes_maybe_url id; aoi_url id]). auto.
  - destruct (fetch_project_data_fails env id w e Hfail) as [reqs [Hshape H']].
    rewrite H' in H. inversion H; subst.
    apply (requests_and_log_only_trans 2 0 w (requested reqs w)); [| apply logged_only].
    destruct Hshape as [-> | ->].
    + apply (requests_and_log_only_weaken 1); [lia |].
      apply (requested_only [yes_maybe_url id]). auto.
    + apply (requested_only [yes_maybe_url id; aoi_url id]). auto.
Qed.

Lemma aggregate_step_only env acc project w r w' :
  aggregate_step env acc project w = (r, w') -> requests_and_log_only 2 w w'.
Proof.
  intros H. destruct (project_id project) as [raw |] eqn:Hraw.
  - destruct (extract_project_id raw w) as [[id | e] w1] eqn:Hid.
    + rewrite (aggregate_step_unfold env acc project raw id w w1 Hraw Hid) in H.
      apply (requests_and_log_only_trans 0 2 w w1);
        [eapply extract_project_id_only; eassumption |].
      apply (requests_and_log_only_trans 0 2 w1 (logged INFO (fetching_message project id) w1));
        [apply logged_only |].
      destruct (fetch_project_data env id (logged INFO (fetching_message project id) w1))
        as [[[[y |] [a |]] | e] w2] eqn:Hf; inversion H; subst;
        eapply fetch_project_data_only; eassumption.
    + destruct (extract_project_id_cases raw w) as [id [H' | [_ [s [_ H']]]]];
        rewrite H' in Hid; discriminate Hid.
  - rewrite aggregate_step_missing_id in H by assumption. inversion H; subst.
    apply (requests_and_log_only_weaken 0); [lia | apply requests_and_log_only_refl].
Qed.

Lemma aggregate_loop_only env projects : forall acc w r w',
  aggregate_loop env projects acc w = (r, w') ->
  requests_and_log_only (2 * length projects) w w'.
Proof.
  induction projects as [| project rest IH]; intros acc w r w' H.
  - simpl in H. inversion H; subst. apply requests_and_log_only_refl.
  - rewrite aggregate_loop_cons in H. unfold bind in H.
    destruct (aggregate_step env acc project w) as [[acc' | e] w1] eqn:Hstep.
    + replace (2 * length (project :: rest)) with (2 + 2 * length rest) by (simpl; lia).
      eapply requests_and_log_only_trans;
        [eapply aggregate_step_only; eassumption | eapply IH; eassumption].
    + inversion H; subst.
      apply (requests_and_log_only_weaken 2); [simpl; lia |].
      eapply aggregate_step_only; eassumption.
Qed.

(** X9.  Whatever its outcome, the aggregation only logs and requests
    addresses of the data service, at most two per project of the
    settings: it touches no directory, no archive and makes no registry
    call. *)
Theorem aggregation_only_requests_and_logs env config w r w' :
  aggregate_project_data env config w = (r, w') ->
  requests_and_log_only (2 * length (PROJECTS config)) w w'.
Proof. unfold aggregate_project_data. apply aggregate_loop_only. Qed.

Lemma aggregation_only_requests_and_logs_witness :
  exists r w',
    aggregate_project_data Sample.env
      (Sample.config [Sample.gone; Sample.p2] []) initial_world = (r, w') /\
    requests_and_log_only 4 initial_world w' /\
    length (requests_made w') = 3.
Proof.
  evar (r : Result (GeoDataFrame * GeoDataFrame)). evar (w' : World).
  assert (H : aggregate_project_data Sample.env
                (Sample.config [Sample.gone; Sample.p2] []) initial_world = (r, w'))
    by (subst r w'; lazy; reflexivity).
  exists r, w'. split; [exact H |].
  split; [exact (aggregation_only_requests_and_logs _ _ _ _ _ H) | reflexivity].
Defined.

(** ** The aggregation loop: missing identifier, invariant, order *)

Lemma aggregate_loop_app env before : forall after acc w,
  aggregate_loop env (before ++ after) acc w
  = match aggregate_loop env before acc w with
    | (Ok acc1, w1) => aggregate_loop env after acc1 w1
    | (Raise e, w1) => (Raise e, w1)
    end.
Proof.
  induction before as [| project before IH]; intros after acc w.
  - reflexivity.
  - change ((project :: before) ++ after) with (project :: (before ++ after)).
    rewrite !aggregate_loop_cons. unfold bind.
    destruct (aggregate_step env acc project w) as [[acc' | e] w1]; [apply IH | reflexivity].
Qed.

(** X10.  A project entry without the key [project_id] makes the
    aggregation raise [KeyError]: the projects before it have been
    fetched, what they yielded is lost with the exception, and the
    projects after it are not fetched. *)
Theorem aggregation_raises_on_missing_project_id
        env before project after acc w acc1 w1 :
  project_id project = None ->
  aggregate_loop env before acc w = (Ok acc1, w1) ->
  aggregate_loop env (before ++ project :: after) acc w = (Raise key_error, w1).
Proof.
  intros Hnone Hbefore. rewrite aggregate_loop_app, Hbefore, aggregate_loop_cons.
  unfold bind. now rewrite aggregate_step_missing_id.
Qed.

Lemma aggregation_raises_on_missing_project_id_witness :
  exists w1,
    aggregate_project_data Sample.env
      (Sample.config [Sample.p2; Demo.anonymous; Sample.p3] []) initial_world
    = (Raise key_error, w1) /\
    requests_made w1 = [yes_maybe_url (Py.PStr "p2"); aoi_url (Py.PStr "p2")].
Proof.
  evar (acc1 : (GeoDataFrame * GeoDataFrame)%type). evar (w1 : World).
  assert (H : aggregate_loop Sample.env [Sample.p2] (empty_frame, empty_frame) initial_world
              = (Ok acc1, w1))
    by (subst acc1 w1; lazy; reflexivity).
  exists w1. split; [| reflexivity].
  exact (aggregation_raises_on_missing_project_id Sample.env [Sample.p2] Demo.anonymous
           [Sample.p3] (empty_frame, empty_frame) initial_world acc1 w1 eq_refl H).
Defined.

Lemma well_formed_accumulate combined data :
  well_formed combined -> well_formed data -> well_formed (accumulate combined data).
Proof.
  intros Hc Hd. unfold accumulate. destruct (empty combined);
    [assumption | now apply well_formed_concat].
Qed.

Lemma well_formed_combine_all l : Forall well_formed l -> well_formed (combine_all l).
Proof.
  unfold combine_all. intros H.
  assert (Hgen : forall a, well_formed a -> well_formed (fold_left accumulate l a)).
  { induction H as [| d l Hd _ IH]; intros a Ha; simpl; [assumption |].
    apply IH. now apply well_formed_accumulate. }
  apply Hgen. split; constructor.
Qed.

(** X11.  When the collections that are read have distinct attribute names
    and one value per attribute in every row, so have the two aggregated
    collections. *)
Theorem aggregates_are_well_formed env config w yes aoi w' :
  (forall body d, read_file env body = Ok d -> well_formed d) ->
  aggregate_project_data env config w = (Ok (yes, aoi), w') ->
  well_formed yes /\ well_formed aoi.
Proof.
  intros Hread H. unfold aggregate_project_data in H.
  change (empty_frame, empty_frame) with (combine_all [], combine_all []) in H.
  destruct (aggregate_loop_combines _ _ _ _ _ _ _ H) as [pairs [Hall Hres]].
  simpl in Hres. inversion Hres; subst.
  assert (Hwf : Forall (fun p => well_formed (fst p) /\ well_formed (snd p)) pairs).
  { eapply Forall_impl; [| exact Hall]. intros p.
    now apply fetched_and_tagged_well_formed. }
  split; apply well_formed_combine_all; apply Forall_map;
    (eapply Forall_impl; [| exact Hwf]); intros p [Hf Hs]; assumption.
Qed.

Lemma aggregates_are_well_formed_witness :
  exists yes aoi w',
    aggregate_project_data Sample.env
      (Sample.config [Sample.p1; Sample.p2; Sample.p3] []) initial_world
    = (Ok (yes, aoi), w') /\
    well_formed yes /\ well_formed aoi.
Proof.
  evar (yes : GeoDataFrame). evar (aoi : GeoDataFrame). evar (w' : World).
  assert (H : aggregate_project_data Sample.env
                (Sample.config [Sample.p1; Sample.p2; Sample.p3] []) initial_world
              = (Ok (yes, aoi), w'))
    by (subst yes aoi w'; lazy; reflexivity).
  exists yes, aoi, w'. split; [exact H |].
  exact (aggregates_are_well_formed Sample.env _ _ _ _ _ sample_parse_well_formed H).
Defined.






(** ** [main] and the script *)

(** X13.  When one of the two aggregated collections has no feature,
    [main] logs an error and returns: no directory, archive or registry
    call is made, by the aggregation or after it. *)
Theorem main_without_data_publishes_nothing env config w yes aoi w1 :
  aggregate_project_data env config w = (Ok (yes, aoi), w1) ->
  rows yes = [] \/ rows aoi = [] ->
  main env config w = (Ok tt, logged ERROR no_data_message w1) /\
  dirs (logged ERROR no_data_message w1) = dirs w /\
  archives (logged ERROR no_data_message w1) = archives w /\
  hdx_calls (logged ERROR no_data_message w1) = hdx_calls w.
Proof.
  intros H Hempty.
  destruct (aggregate_loop_only env (PROJECTS config) _ w _ w1 H) as (Hd & Ha & Hh & _).
  split; [| simpl; auto].
  unfold main, bind. rewrite H.
  assert (E : negb (empty yes) && negb (empty aoi) = false).
  { unfold empty. destruct Hempty as [-> | ->]; [reflexivity |].
    destruct (rows yes); reflexivity. }
  rewrite E. reflexivity.
Qed.

Lemma main_without_data_publishes_nothing_witness :
  exists w',
    main Sample.env (Sample.config [Sample.gone; Sample.p1] ["geojson"]) initial_world
    = (Ok tt, w') /\
    hdx_calls w' = [] /\ dirs w' = [] /\ archives w' = [].
Proof.
  evar (yes : GeoDataFrame). evar (aoi : GeoDataFrame). evar (w1 : World).
  assert (H : aggregate_project_data Sample.env
                (Sample.config [Sample.gone; Sample.p1] ["geojson"]) initial_world
              = (Ok (yes, aoi), w1))
    by (subst yes aoi w1; lazy; reflexivity).
  destruct (main_without_data_publishes_nothing _ _ _ _ _ _ H (or_introl eq_refl))
    as [Hmain [Hd [Ha Hh]]].
  eexists. split; [exact Hmain |]. split; [exact Hh |]. split; [exact Hd | exact Ha].
Defined.

(** X14.  The script stops on a configuration error: when the logger can
    be configured and the credentials are missing or empty it raises the
    [ValueError] and the world is as it was, no request, directory, archive or registry call having been
    made. *)
Theorem program_stops_without_credentials loader env raw w :
  load_config loader (FromStr "config.yaml") = Ok raw ->
  logging_basic_config loader (get_or (raw_log_level raw) "INFO")
                       (get_or (raw_log_format raw) default_log_format) = None ->
  ~ (usable (os_getenv loader "HDX_API_KEY" (raw_hdx_api_key raw)) /\
     usable (os_getenv loader "HDX_OWNER_ORG" (raw_hdx_owner_org raw)) /\
     usable (os_getenv loader "HDX_MAINTAINER" (raw_hdx_maintainer raw))) ->
  program loader env w = (Raise credentials_error, w).
Proof.
  intros Hload Hlog Hno. unfold program, bind.
  now rewrite (Config_init_without_credentials loader (FromStr "config.yaml") raw w
                 Hload Hlog Hno).
Qed.

Lemma program_stops_without_credentials_witness :
  program Demo.loader_empty_key Sample.env initial_world
  = (Raise credentials_error, initial_world).
Proof.
  apply (program_stops_without_credentials Demo.loader_empty_key Sample.env Demo.raw).
  - reflexivity.
  - reflexivity.
  - intros [[c [s H]] _]. discriminate H.
Defined.

(** ** The packager: what a failure leaves *)

Lemma archives_only_refl w : archives_only w w.
Proof. repeat split. Qed.

Lemma archives_only_trans a b c :
  archives_only a b -> archives_only b c -> archives_only a c.
Proof.
  intros (H1 & H2 & H3 & H4) (K1 & K2 & K3 & K4). repeat split; congruence.
Qed.

Lemma write_archive_archives_only env config wd zp :
  preserves archives_only (write_archive env config wd zp).
Proof.
  assert (Hperform : forall o effect,
             (forall w, archives_only w (effect w)) ->
             preserves archives_only (perform env o effect)).
  { intros o effect. apply preserves_perform, archives_only_refl. }
  assert (Hbind : forall A B (c : M A) (k : A -> M B),
             preserves archives_only c -> (forall x, preserves archives_only (k x)) ->
             preserves archives_only (bind c k)).
  { intros A B. apply preserves_bind, archives_only_trans. }
  unfold write_archive, zip_create, fill_archive.
  apply Hbind; [apply Hperform; intros w; repeat split | intros _].
  apply Hbind.
  - intros w r w' H. unfold iterdir in H.
    destruct (fault env (OpIterdir wd)); [| destruct (lookup wd (dirs w))];
      inversion H; apply archives_only_refl.
  - intros files. apply Hbind; [| intros _; apply Hperform; intros w; repeat split].
    apply preserves_for_each; [apply archives_only_refl | apply archives_only_trans |].
    intros f w r w' H.
    destruct (add_file_cases env wd zp f w) as [Hf | [e Hf]]; rewrite Hf in H;
      inversion H; subst; repeat split.
Qed.

(** X15.  The packager deletes the directory only when it succeeds.  The
    deletion itself not failing, a packaging call that raises, at whatever
    point, has not reached the deletion: it leaves every directory as it
    was and has logged nothing; a call that returns has removed the
    directory it packaged and no other. *)
Theorem packaging_deletes_only_on_success env config wd zp w :
  fault env (OpRmtree wd) = None ->
  (forall e w', file_to_zip env config wd zp w = (Raise e, w') -> archives_only w w') /\
  (forall r w',
     file_to_zip env config wd zp w = (Ok r, w') ->
     dirs w' = remove_key wd (dirs w) /\ log w' = log w /\
     hdx_calls w' = hdx_calls w /\ requests_made w' = requests_made w).
Proof.
  intros Hrm. split.
  - intros e w' H. rewrite file_to_zip_unfold in H.
    destruct (write_archive env config wd zp w) as [[[] | e0] w2] eqn:Hw.
    + rewrite Hrm in H. discriminate H.
    + inversion H; subst. eapply write_archive_archives_only; eassumption.
  - intros r w' H. rewrite file_to_zip_unfold in H.
    destruct (write_archive env config wd zp w) as [[[] | e0] w2] eqn:Hw; [| discriminate H].
    rewrite Hrm in H.
    injection H as _ Hw'. rewrite <- Hw'.
    destruct (write_archive_archives_only env config wd zp w _ _ Hw) as (Hd & Hl & Hh & Hr).
    simpl. rewrite Hd. auto.
Qed.

Lemma packaging_deletes_only_on_success_witness :
  exists w',
    file_to_zip Demo.env_archive_full (Sample.config [] []) "/work/out" "out.zip"
                (Sample.world_with_dir [Sample.small_file])
    = (Raise Sample.disk_full, w') /\
    dirs w' = [("/work/out", [Sample.small_file])].
Proof.
  evar (w' : World).
  assert (H : file_to_zip Demo.env_archive_full (Sample.config [] []) "/work/out" "out.zip"
                (Sample.world_with_dir [Sample.small_file])
              = (Raise Sample.disk_full, w'))
    by (subst w'; lazy; reflexivity).
  destruct (packaging_deletes_only_on_success Demo.env_archive_full (Sample.config [] [])
              "/work/out" "out.zip" (Sample.world_with_dir [Sample.small_file]) eq_refl)
    as [Hraise _].
  destruct (Hraise _ _ H) as [Hd _].
  exists w'. split; [exact H | exact Hd].
Defined.

(** X16.  When the directory to package does not exist, the packager
    raises [FileNotFoundError]; the archive has been created by then and
    is left without any member, not even the manifest. *)
Theorem packaging_missing_directory env config wd zp w :
  fault env (OpZipFile zp) = None ->
  fault env (OpIterdir wd) = None ->
  lookup wd (dirs w) = None ->
  exists w',
    file_to_zip env config wd zp w
    = (Raise {| exn_type := "FileNotFoundError"; exn_msg := wd |}, w') /\
    members_of w' zp = [] /\ lookup zp (archives w') = Some [] /\
    archives_only w w'.
Proof.
  intros Hzip Hiter Hdir.
  exists (set_archives (store zp [] (archives w)) w).
  split; [| split; [| split]].
  - unfold file_to_zip, zip_create, fill_archive, iterdir, bind, perform.
    rewrite Hzip, Hiter. simpl. now rewrite Hdir.
  - unfold members_of. simpl. now rewrite lookup_store.
  - simpl. apply lookup_store.
  - repeat split.
Qed.

Lemma packaging_missing_directory_witness :
  exists w',
    file_to_zip Sample.env (Sample.config [] []) "/work/nowhere" "out.zip"
                (Sample.world_with_dir [Sample.small_file])
    = (Raise {| exn_type := "FileNotFoundError"; exn_msg := "/work/nowhere" |}, w') /\
    members_of w' "out.zip" = [].
Proof.
  destruct (packaging_missing_directory Sample.env (Sample.config [] []) "/work/nowhere"
              "out.zip" (Sample.world_with_dir [Sample.small_file])
              eq_refl eq_refl eq_refl) as [w' [H [Hm _]]].
  exists w'. split; [exact H | exact Hm].
Defined.

(** ** The export of a format and the whole publication *)

Lemma store_store {V} k (v v' : V) : forall l, store k v (store k v' l) = store k v l.
Proof.
  induction l as [| [k' u] l IH]; simpl.
  - now rewrite String.eqb_refl.
  - destruct (String.eqb k k') eqn:E; simpl.
    + now rewrite String.eqb_refl.
    + now rewrite E, IH.
Qed.

Lemma store_same {V} k (v : V) : forall l, lookup k l = Some v -> store k v l = l.
Proof.
  induction l as [| [k' u] l IH]; simpl; intros H; [discriminate |].
  destruct (String.eqb k k') eqn:E.
  - apply String.eqb_eq in E. inversion H. now subst.
  - now rewrite IH.
Qed.

Lemma remove_key_absent {V} k : forall l : list (string * V),
  lookup k l = None -> remove_key k l = l.
Proof.
  induction l as [| [k' u] l IH]; simpl; intros H; [reflexivity |].
  destruct (String.eqb k k'); [discriminate | now rewrite IH].
Qed.

Lemma remove_key_store {V} k (v : V) : forall l,
  lookup k l = None -> remove_key k (store k v l) = l.
Proof.
  induction l as [| [k' u] l IH]; simpl; intros H.
  - now rewrite String.eqb_refl.
  - destruct (String.eqb k k') eqn:E; [discriminate |]. simpl. now rewrite E, IH.
Qed.

Lemma set_dirs_same w : set_dirs (dirs w) w = w.
Proof. now destruct w. Qed.

Lemma to_file_run env gdf dir file driver w :
  fault_free env ->
  to_file env gdf dir file driver w
  = (Ok tt,
     set_dirs (store dir
                 (put_file {| fname := file; fsize := encoded_size env driver gdf;
                              fcontent := Vector driver gdf |} (files_of w dir))
                 (dirs w)) w).
Proof. intros Hfree. unfold to_file, perform. now rewrite Hfree. Qed.

(** Parts with new, distinct names written into an existing directory. *)
Lemma write_parts_world env dir parts : forall w files,
  fault_free env ->
  lookup dir (dirs w) = Some files ->
  NoDup (map fst parts) ->
  (forall p, In p parts -> ~ In (fst p) (map fname files)) ->
  for_each parts (fun part => to_file env (snd part) dir (fst part) "ESRI Shapefile") w
  = (Ok tt, set_dirs (store dir (files ++ map (part_file env) parts) (dirs w)) w).
Proof.
  induction parts as [| p parts IH]; intros w files Hfree Hdir Hnd Hfresh.
  - simpl. rewrite app_nil_r, (store_same _ _ _ Hdir), set_dirs_same. reflexivity.
  - inversion Hnd as [| ? ? Hp Hnd']; subst.
    cbn [for_each]. unfold bind. rewrite to_file_run by assumption.
    fold (part_file env p). unfold files_of at 1. rewrite Hdir.
    rewrite put_file_fresh by (apply Hfresh; now left).
    rewrite (IH _ (files ++ [part_file env p]) Hfree).
    + simpl. rewrite store_store, <- app_assoc. reflexivity.
    + simpl. apply lookup_store.
    + assumption.
    + intros q Hq. rewrite map_app, in_app_iff. simpl.
      intros [H | [H | []]].
      * apply (Hfresh q (or_intror Hq) H).
      * apply Hp. rewrite H. now apply in_map.
Qed.

Lemma shapefile_part_names gdf name :
  NoDup (map fst (shapefile_parts gdf name)) /\
  forall p, In p (shapefile_parts gdf name) -> exists t, fst p = shapefile_name name t.
Proof.
  unfold shapefile_parts. split.
  - rewrite map_map. simpl.
    pose proof (NoDup_unique_from (map type_of (rows gdf)) []) as Hnd.
    fold (unique (map type_of (rows gdf))) in Hnd.
    induction Hnd as [| t ts Hnotin _ IH]; simpl; constructor; [| exact IH].
    rewrite in_map_iff. intros [t' [He Hin]].
    apply shapefile_name_injective in He. now subst.
  - intros p Hp. apply in_map_iff in Hp. destruct Hp as [t [<- _]]. now exists t.
Qed.

Lemma zip_append_add_all zp m files : forall w,
  zip_append zp m (add_all zp files w)
  = set_archives (store zp (members_of w zp ++ map data_member files ++ [m]) (archives w)) w.
Proof.
  unfold add_all. induction files as [| f files IH]; intros w; simpl.
  - reflexivity.
  - rewrite IH, members_of_zip_append. unfold zip_append at 1 2. simpl.
    rewrite store_store, <- app_assoc. reflexivity.
Qed.

Lemma packaged_world env config wd zp files w :
  lookup wd (dirs w) = Some files ->
  packaged env config wd zp files w
  = set_dirs (remove_key wd (dirs w))
      (set_archives
         (store zp (map data_member files ++ [readme_member env config]) (archives w)) w).
Proof.
  intros _. unfold packaged. cbv zeta. rewrite zip_append_add_all.
  unfold members_of. simpl. rewrite lookup_store, store_store. reflexivity.
Qed.

(** The files of a format, written into its new directory. *)
Lemma write_format_files env y a fmt dir w :
  fault_free env -> lookup dir (dirs w) = Some [] ->
  (if String.eqb fmt "shp"
   then export_shapefile env y "results_yes_maybe" dir ;;
        export_shapefile env a "aois" dir
   else to_file env y dir ("results_yes_maybe." ++ fmt) (get_driver_for_format fmt) ;;
        to_file env a dir ("aois." ++ fmt) (get_driver_for_format fmt)) w
  = (Ok tt, set_dirs (store dir (exported_files env y a fmt) (dirs w)) w).
Proof.
  intros Hfree Hdir. unfold exported_files. destruct (String.eqb fmt "shp").
  - destruct (shapefile_part_names y "results_yes_maybe") as [Hnd_y Hnames_y].
    destruct (shapefile_part_names a "aois") as [Hnd_a Hnames_a].
    unfold export_shapefile, bind.
    rewrite (write_parts_world env dir _ w [] Hfree Hdir Hnd_y) by (intros p _ []).
    rewrite (write_parts_world env dir _ _
               (map (part_file env) (shapefile_parts y "results_yes_maybe")) Hfree).
    + simpl. rewrite store_store. reflexivity.
    + simpl. apply lookup_store.
    + assumption.
    + intros p Hp Hin. destruct (Hnames_a p Hp) as [t Ht]. rewrite Ht in Hin.
      rewrite map_map in Hin. apply in_map_iff in Hin. destruct Hin as [q [Hq Hin]].
      destruct (Hnames_y q Hin) as [t' Ht']. simpl in Hq. rewrite Ht' in Hq.
      discriminate Hq.
  - unfold bind. rewrite !to_file_run by assumption.
    unfold files_of at 2. rewrite Hdir. simpl.
    unfold files_of. simpl. rewrite lookup_store. simpl.
    rewrite store_store. reflexivity.
Qed.

Lemma export_format_run env config y a fmt w :
  fault_free env ->
  lookup (dir_path_of env config fmt) (dirs w) = None ->
  export_format env config y a fmt w = (Ok tt, format_exported env config y a fmt w).
Proof.
  intros Hfree Hdir. unfold export_format. fold (dir_path_of env config fmt).
  set (dir := dir_path_of env config fmt) in *. cbv zeta.
  unfold bind at 1. unfold makedirs, perform at 1. rewrite Hfree, Hdir.
  unfold bind at 1.
  rewrite (write_format_files env y a fmt dir _ Hfree) by (simpl; apply lookup_store).
  unfold bind at 1.
  rewrite (file_to_zip_total env config dir (zip_name_of config fmt) _
             (exported_files env y a fmt) Hfree) by (simpl; apply lookup_store).
  rewrite packaged_world by (simpl; apply lookup_store).
  unfold hdx, perform. rewrite Hfree. simpl.
  rewrite !store_store, (remove_key_store _ _ _ Hdir).
  reflexivity.
Qed.

Lemma single_file_driver_not_shp fmt :
  In (get_driver_for_format fmt) ["GeoJSON"; "GPKG"; "KML"] ->
  String.eqb fmt "shp" = false.
Proof.
  intros H. destruct (String.eqb fmt "shp") eqn:E; [| reflexivity].
  apply String.eqb_eq in E. subst fmt. vm_compute in H.
  destruct H as [H | [H | [H | []]]]; discriminate H.
Qed.

(** X17.  When nothing fails and the directory of the format does not
    exist yet, the export of a format whose driver is GeoJSON, GPKG or
    KML, which write one file each, returns and leaves: an archive, named
    after the format in lower case, whose members are the two exported
    files, named after the format as the settings spell it, and then the
    manifest; no directory more than before; nothing logged; one more
    resource in the registry calls, named after the format and pointing
    to the archive. *)
Theorem export_of_a_format env config y a fmt w :
  fault_free env ->
  In (get_driver_for_format fmt) ["GeoJSON"; "GPKG"; "KML"] ->
  lookup (dir_path_of env config fmt) (dirs w) = None ->
  exists w' listing,
    export_format env config y a fmt w = (Ok tt, w') /\
    Permutation listing (vector_files env y a fmt) /\
    members_of w' (zip_name_of config fmt)
    = map data_member listing ++ [readme_member env config] /\
    dirs w' = dirs w /\ log w' = log w /\
    hdx_calls w' = hdx_calls w ++ [HAddUpdateResource (resource_of config fmt)].
Proof.
  intros Hfree Hdriver Hdir. apply single_file_driver_not_shp in Hdriver.
  exists (format_exported env config y a fmt w), (vector_files env y a fmt).
  split; [now apply export_format_run |].
  split; [apply Permutation_refl |].
  split; [| split; [| split]]; try reflexivity.
  unfold format_exported, members_of, exported_files. simpl.
  now rewrite lookup_store, Hdriver.
Qed.

Lemma export_of_a_format_witness :
  exists w' listing,
    export_format Sample.env (Sample.config [] ["GeoJSON"]) Sample.mixed Sample.aoi "GeoJSON"
                  initial_world = (Ok tt, w') /\
    Permutation (map fname listing) ["results_yes_maybe.GeoJSON"; "aois.GeoJSON"] /\
    map mname (members_of w' "mapswipe_results_geojson.zip")
    = map fname listing ++ ["Readme.txt"] /\
    dirs w' = [].
Proof.
  destruct (export_of_a_format Sample.env (Sample.config [] ["GeoJSON"]) Sample.mixed
              Sample.aoi "GeoJSON" initial_world (fun _ => eq_refl) (or_introl eq_refl)
              eq_refl)
    as [w' [listing [H [Hp [Hm [Hd _]]]]]].
  exists w', listing. split; [exact H |].
  split; [exact (Permutation_map fname Hp) |].
  split; [| exact Hd].
  change "mapswipe_results_geojson.zip"
    with (zip_name_of (Sample.config [] ["GeoJSON"]) "GeoJSON").
  rewrite Hm, map_app, map_map. reflexivity.
Defined.

Lemma add_hdx_calls_fields calls : forall w,
  hdx_calls (add_hdx_calls calls w) = hdx_calls w ++ calls /\
  dirs (add_hdx_calls calls w) = dirs w /\
  archives (add_hdx_calls calls w) = archives w /\
  log (add_hdx_calls calls w) = log w /\
  requests_made (add_hdx_calls calls w) = requests_made w.
Proof.
  unfold add_hdx_calls. induction calls as [| c calls IH]; intros w; simpl.
  - rewrite app_nil_r. auto.
  - destruct (IH (add_hdx_call c w)) as (H1 & H2 & H3 & H4 & H5).
    rewrite H1, H2, H3, H4, H5. simpl. rewrite <- app_assoc. auto.
Qed.

Lemma for_each_hdx_run {A} env (f : A -> hdx_call) l : forall w,
  fault_free env ->
  for_each l (fun x => hdx env (f x)) w = (Ok tt, add_hdx_calls (map f l) w).
Proof.
  intros w Hfree. revert w. induction l as [| x l IH]; intros w; simpl; [reflexivity |].
  unfold bind, hdx at 1, perform. rewrite Hfree. apply IH.
Qed.

Lemma prepare_dataset_run env config w :
  fault_free env ->
  prepare_dataset env config w = (Ok tt, add_hdx_calls (preparation_calls config) w).
Proof.
  intros Hfree. unfold prepare_dataset, bind, hdx, perform. rewrite !Hfree.
  rewrite (for_each_hdx_run env HAddTag) by assumption.
  unfold preparation_calls, add_hdx_calls. simpl. reflexivity.
Qed.

Lemma formats_exported_fields env config y a formats : forall w,
  hdx_calls (formats_exported env config y a formats w)
  = hdx_calls w ++ map (fun fmt => HAddUpdateResource (resource_of config fmt)) formats /\
  dirs (formats_exported env config y a formats w) = dirs w /\
  archives (formats_exported env config y a formats w)
  = fold_left (fun archs fmt =>
                 store (zip_name_of config fmt) (archive_members env config y a fmt) archs)
              formats (archives w) /\
  log (formats_exported env config y a formats w) = log w /\
  requests_made (formats_exported env config y a formats w) = requests_made w.
Proof.
  unfold formats_exported. induction formats as [| fmt formats IH]; intros w; simpl.
  - rewrite app_nil_r. auto.
  - destruct (IH (format_exported env config y a fmt w)) as (H1 & H2 & H3 & H4 & H5).
    rewrite H1, H2, H3, H4, H5. simpl. rewrite <- app_assoc. auto.
Qed.

Lemma export_loop_run env config y a formats : forall w,
  fault_free env ->
  (forall fmt, In fmt formats -> lookup (dir_path_of env config fmt) (dirs w) = None) ->
  for_each formats (export_format_guarded env config y a) w
  = (Ok tt, formats_exported env config y a formats w).
Proof.
  intros w Hfree. revert w.
  induction formats as [| fmt formats IH]; intros w Hdirs; simpl; [reflexivity |].
  unfold bind, export_format_guarded at 1, try_except.
  rewrite export_format_run by (auto; apply Hdirs; now left).
  apply IH. intros f Hf. simpl. apply Hdirs. now right.
Qed.

Lemma lookup_store_other {V} k k' (v : V) : forall l,
  k <> k' -> lookup k (store k' v l) = lookup k l.
Proof.
  intros l Hne. apply String.eqb_neq in Hne.
  induction l as [| [k2 v2] l IH]; simpl.
  - now rewrite Hne.
  - destruct (String.eqb k' k2) eqn:E; simpl.
    + apply String.eqb_eq in E. subst k2. now rewrite Hne.
    + now rewrite IH.
Qed.

Lemma lookup_fold_store_other {A V} (key : A -> string) (val : A -> V) p l : forall m,
  (forall x, In x l -> key x <> p) ->
  lookup p (fold_left (fun m x => store (key x) (val x) m) l m) = lookup p m.
Proof.
  induction l as [| x l IH]; intros m H; simpl; [reflexivity |].
  rewrite IH by (intros x' Hx'; apply H; now right).
  apply lookup_store_other. intros E. apply (H x); [now left | now symmetry].
Qed.

Lemma lookup_fold_store {A V} (key : A -> string) (val : A -> V) l : forall m x,
  In x l ->
  exists x', In x' l /\ key x' = key x /\
    lookup (key x) (fold_left (fun m x => store (key x) (val x) m) l m) = Some (val x').
Proof.
  induction l as [| x0 l IH] using rev_ind; intros m x Hin; [destruct Hin |].
  rewrite fold_left_app. simpl.
  destruct (String.eqb (key x) (key x0)) eqn:E.
  - apply String.eqb_eq in E. exists x0.
    split; [apply in_or_app; right; now left |].
    split; [now symmetry |]. rewrite E. apply lookup_store.
  - apply String.eqb_neq in E. apply in_app_or in Hin.
    destruct Hin as [Hin | [Heq | []]]; [| subst x0; now contradiction E].
    destruct (IH m x Hin) as [x' [Hx' [Hk Hl]]]. exists x'.
    split; [apply in_or_app; now left |]. split; [exact Hk |].
    rewrite lookup_store_other by exact E. exact Hl.
Qed.

(** X18.  When nothing fails and no directory of a requested format exists
    yet, [create_and_upload_dataset] returns the address of the dataset.
    The registry has received, in order, the dataset with its metadata,
    one resource per requested format in the order of the settings, then
    the creation and the update; every requested format has an archive,
    which ends with the manifest, and the archives of other names are
    as they were; the directories are as before and nothing is logged. *)
Theorem publication_succeeds env config y a w :
  fault_free env ->
  (forall fmt, In fmt (FILE_FORMATS config) ->
               lookup (dir_path_of env config fmt) (dirs w) = None) ->
  exists w',
    create_and_upload_dataset env config y a w = (Ok (hdx_url env), w') /\
    hdx_calls w'
    = hdx_calls w ++ preparation_calls config
      ++ map (fun fmt => HAddUpdateResource (resource_of config fmt)) (FILE_FORMATS config)
      ++ [HCreateInHdx; HUpdateInHdx] /\
    (forall fmt, In fmt (FILE_FORMATS config) ->
       exists data,
         lookup (zip_name_of config fmt) (archives w')
         = Some (data ++ [readme_member env config])) /\
    (forall zip_path,
       (forall fmt, In fmt (FILE_FORMATS config) -> zip_name_of config fmt <> zip_path) ->
       lookup zip_path (archives w') = lookup zip_path (archives w)) /\
    dirs w' = dirs w /\ log w' = log w /\ requests_made w' = requests_made w.
Proof.
  intros Hfree Hdirs.
  set (w1 := add_hdx_calls (preparation_calls config) w).
  set (w2 := formats_exported env config y a (FILE_FORMATS config) w1).
  destruct (add_hdx_calls_fields (preparation_calls config) w) as (P1 & P2 & P3 & P4 & P5).
  destruct (formats_exported_fields env config y a (FILE_FORMATS config) w1)
    as (F1 & F2 & F3 & F4 & F5).
  fold w1 in P1, P2, P3, P4, P5. fold w2 in F1, F2, F3, F4, F5.
  exists (add_hdx_call HUpdateInHdx (add_hdx_call HCreateInHdx w2)).
  split.
  - unfold create_and_upload_dataset, bind at 1.
    rewrite prepare_dataset_run by assumption. fold w1.
    unfold bind at 1. rewrite export_loop_run; [| assumption |].
    + fold w2. unfold bind, hdx, perform, ret. now rewrite !Hfree.
    + intros fmt Hf. rewrite P2. now apply Hdirs.
  - simpl. rewrite F1, F2, F3, F4, F5, P1, P2, P3, P4, P5.
    rewrite <- !app_assoc. simpl.
    split; [reflexivity |]. split; [| split; [| auto]].
    + intros fmt Hin.
      destruct (lookup_fold_store (zip_name_of config) (archive_members env config y a)
                  (FILE_FORMATS config) (archives w) fmt Hin) as [fmt' [_ [_ Hl]]].
      exists (map data_member (exported_files env y a fmt')). exact Hl.
    + intros zip_path Hother. now apply lookup_fold_store_other.
Qed.

Lemma publication_succeeds_witness :
  exists w',
    create_and_upload_dataset Sample.env (Sample.config [Sample.p2] ["geojson"; "shp"])
                              Sample.mixed Sample.aoi initial_world
    = (Ok "https://data.humdata.org/dataset/mapswipe_results", w') /\
    (exists data,
       lookup "mapswipe_results_shp.zip" (archives w')
       = Some (data ++ [readme_member Sample.env
                          (Sample.config [Sample.p2] ["geojson"; "shp"])])) /\
    dirs w' = [].
Proof.
  destruct (publication_succeeds Sample.env (Sample.config [Sample.p2] ["geojson"; "shp"])
              Sample.mixed Sample.aoi initial_world (fun _ => eq_refl) (fun _ _ => eq_refl))
    as [w' [H [_ [Ha [_ [Hd _]]]]]].
  exists w'. split; [exact H |].
  split; [exact (Ha "shp" (or_intror (or_introl eq_refl))) | exact Hd].
Defined.

(** ** The link of a project *)

(** X19.  The link of a project points to the identifier the resolver
    returns for its reference, the one the aggregation fetches; its text
    is the display name of the settings or, when there is none,
    ["Project "] followed by the reference as it is written in the
    settings, not resolved.  An entry without [project_id], on which the
    aggregation raises, still gets a link, with an empty identifier. *)
Theorem link_points_to_resolved_identifier project :
  (forall raw id w w1,
     project_id project = Some raw ->
     extract_project_id raw w = (Ok id, w1) ->
     project_link project
     = ("- [" ++ get_or (name project) ("Project " ++ Py.fmt raw)
             ++ "](https://mapswipe.org/en/projects/" ++ Py.fmt id ++ "/)")%string) /\
  (project_id project = None ->
   project_link project
   = ("- [" ++ get_or (name project) "Project "
           ++ "](https://mapswipe.org/en/projects//)")%string).
Proof.
  split.
  - intros raw id w w1 Hraw Hid. unfold project_link. rewrite Hraw.
    assert (Hresolved :
              match raw with
              | Py.PStr s =>
                if Py.startswith s "http"
                then match Re.search s with Some token => Py.PStr token | None => raw end
                else raw
              | Py.PNonStr _ => raw
              end = id).
    { destruct raw as [s | r]; simpl in Hid.
      - destruct (Py.startswith s "http").
        + destruct (Re.search s); [now inversion Hid |].
          unfold bind, logger_warning, logger_call, ret in Hid. now inversion Hid.
        + now inversion Hid.
      - now inversion Hid. }
    cbv zeta. rewrite Hresolved.
    destruct (name project); simpl; rewrite !string_append_assoc; reflexivity.
  - intros Hnone. unfold project_link. rewrite Hnone. simpl.
    destruct (name project); reflexivity.
Qed.

Lemma link_points_to_resolved_identifier_witness :
  project_link {| project_id := Some (Py.PStr "https://mapswipe.org/en/projects/-NFN_r5/");
                  name := None |}
  = "- [Project https://mapswipe.org/en/projects/-NFN_r5/](https://mapswipe.org/en/projects/-NFN_r5/)"
  /\ project_link Demo.anonymous = "- [No id](https://mapswipe.org/en/projects//)".
Proof.
  destruct (link_points_to_resolved_identifier
              {| project_id := Some (Py.PStr "https://mapswipe.org/en/projects/-NFN_r5/");
                 name := None |}) as [Hlink _].
  destruct (link_points_to_resolved_identifier Demo.anonymous) as [_ Hnone].
  split.
  - rewrite (Hlink (Py.PStr "https://mapswipe.org/en/projects/-NFN_r5/")
                   (Py.PStr "-NFN_r5") initial_world initial_world eq_refl eq_refl).
    reflexivity.
  - rewrite (Hnone eq_refl). reflexivity.
Defined.

(** ** A directory left by an earlier run *)

Lemma remove_key_stored {V} k (v : V) : forall l,
  remove_key k (store k v l) = remove_key k l.
Proof.
  induction l as [| [k' u] l IH]; simpl.
  - now rewrite String.eqb_refl.
  - destruct (String.eqb k k') eqn:E; simpl.
    + now rewrite String.eqb_refl.
    + now rewrite E, IH.
Qed.

(** X20.  The directory of a format is reused when it exists
    ([exist_ok=True]) and is not emptied: for a format whose driver is
    GeoJSON, GPKG or KML, the files it already holds, when they are named
    otherwise than the two exported files, are packaged with them in the
    archive of the format.  The directory is deleted afterwards. *)
Theorem export_packages_stale_files env config y a fmt w stale :
  fault_free env ->
  In (get_driver_for_format fmt) ["GeoJSON"; "GPKG"; "KML"] ->
  lookup (dir_path_of env config fmt) (dirs w) = Some stale ->
  ~ In ("results_yes_maybe." ++ fmt)%string (map fname stale) ->
  ~ In ("aois." ++ fmt)%string (map fname stale) ->
  exists w' listing,
    export_format env config y a fmt w = (Ok tt, w') /\
    Permutation listing (stale ++ vector_files env y a fmt) /\
    members_of w' (zip_name_of config fmt)
    = map data_member listing ++ [readme_member env config] /\
    lookup (dir_path_of env config fmt) (dirs w') = None.
Proof.
  intros Hfree Hne Hdir Hy Ha. apply single_file_driver_not_shp in Hne.
  unfold export_format. fold (dir_path_of env config fmt).
  set (dir := dir_path_of env config fmt) in *. cbv zeta.
  unfold bind at 1. unfold makedirs, perform at 1. rewrite Hfree, Hdir, Hne.
  unfold bind at 1. unfold bind at 1. rewrite !to_file_run by assumption.
  assert (Hfiles : files_of w dir = stale) by (unfold files_of; now rewrite Hdir).
  rewrite Hfiles, files_of_stored.
  rewrite (put_file_fresh _ stale) by assumption.
  rewrite put_file_fresh.
  2:{ rewrite map_app, in_app_iff. simpl. intros [H | [H | []]]; [now apply Ha |].
      discriminate H. }
  simpl dirs. rewrite store_store, <- app_assoc.
  unfold bind at 1.
  rewrite (file_to_zip_total env config dir (zip_name_of config fmt) _
             (stale ++ vector_files env y a fmt) Hfree) by (simpl; apply lookup_store).
  unfold hdx, perform. rewrite Hfree.
  eexists. exists (stale ++ vector_files env y a fmt).
  split; [reflexivity |]. split; [apply Permutation_refl |]. split.
  - change (members_of (add_hdx_call ?c ?x) ?z) with (members_of x z).
    apply members_of_packaged.
  - unfold packaged. simpl. apply lookup_remove_key.
Qed.

Lemma export_packages_stale_files_witness :
  exists w' listing,
    export_format Sample.env (Sample.config [] ["geojson"]) Sample.results_p2 Sample.aoi
                  "geojson"
                  {| requests_made := []; log := [];
                     dirs := [("/work/mapswipe_results_geojson", [Sample.large_file])];
                     archives := []; hdx_calls := [] |}
    = (Ok tt, w') /\
    Permutation (map fname listing)
                ["results_yes_maybe.gpkg"; "results_yes_maybe.geojson"; "aois.geojson"] /\
    map mname (members_of w' "mapswipe_results_geojson.zip")
    = map fname listing ++ ["Readme.txt"].
Proof.
  destruct (export_packages_stale_files Sample.env (Sample.config [] ["geojson"])
              Sample.results_p2 Sample.aoi "geojson"
              {| requests_made := []; log := [];
                 dirs := [("/work/mapswipe_results_geojson", [Sample.large_file])];
                 archives := []; hdx_calls := [] |}
              [Sample.large_file] (fun _ => eq_refl))
    as [w' [listing [H [Hp [Hm _]]]]].
  - left. reflexivity.
  - reflexivity.
  - simpl. intuition discriminate.
  - simpl. intuition discriminate.
  - exists w', listing. split; [exact H |].
    split; [exact (Permutation_map fname Hp) |].
    change "mapswipe_results_geojson.zip"
      with (zip_name_of (Sample.config [] ["geojson"]) "geojson").
    rewrite Hm, map_app, map_map. reflexivity.
Defined.
